(** * Gaming tracker (src/index.js): room registry, rate limiter, IP blocks, nonces

    A shallow embedding of the Express tracker in [src/index.js].  The global
    mutable maps of the server ([rooms], [rateLimitMap], [blockedIPs],
    [usedNonces]) become fields of one explicit state; every request handler
    and every periodic [setInterval] callback becomes a function from a state
    (and "now", the value of [Date.now()]) to a new state and a response.

    JavaScript [Map]s iterate in insertion order, and the code depends on it
    (the stable [sort] of [Array.from(map.entries())] breaks ties by it, and
    [usedNonces.values().next()] is the first inserted nonce), so maps are
    association lists kept in insertion order: [Map.prototype.set] on an
    existing key replaces the value in place, on a new key appends. *)

From Stdlib Require Import ZArith Lia List Bool String Ascii Sorted Permutation.
Import ListNotations.
Open Scope string_scope.
Open Scope Z_scope.
Open Scope list_scope.

(** [length] is the list length; strings use [String.length]. *)
Abbreviation length := List.length.

(* ------------------------------------------------------------------------- *)
(** ** JavaScript values *)

(** The primitive values a JSON request body can carry.  JSON numbers are
    modelled as integers (every numeric field of the tracker is an integer
    count of milliseconds or mojos).  Objects and arrays, which the JSON and
    the extended urlencoded body parsers can also deliver, are not modelled:
    they are compared by identity ([Set.has], [===]), not by value, and the
    statements below are about primitive values. *)
Inductive jsval : Type :=
| JUndef
| JNull
| JBool (b : bool)
| JNum (z : Z)
| JStr (s : string).

(** JavaScript truthiness: [undefined], [null], [false], [0] and [""] are
    falsy. *)
Definition truthy (v : jsval) : bool :=
  match v with
  | JUndef | JNull => false
  | JBool b => b
  | JNum z => negb (z =? 0)
  | JStr s => negb (String.eqb s "")
  end.

(** [a || b] *)
Definition js_or (a b : jsval) : jsval := if truthy a then a else b.

(** Strict equality [===] (and the SameValueZero of [Map]/[Set] keys) on
    primitives. *)
Definition jsval_eqb (a b : jsval) : bool :=
  match a, b with
  | JUndef, JUndef | JNull, JNull => true
  | JBool x, JBool y => Bool.eqb x y
  | JNum x, JNum y => x =? y
  | JStr x, JStr y => String.eqb x y
  | _, _ => false
  end.

Lemma jsval_eqb_eq a b : jsval_eqb a b = true <-> a = b.
Proof.
  destruct a, b; simpl; split; intro H; try discriminate; try reflexivity.
  - apply Bool.eqb_prop in H; subst; reflexivity.
  - inversion H; subst; apply Bool.eqb_reflx.
  - apply Z.eqb_eq in H; subst; reflexivity.
  - inversion H; subst; apply Z.eqb_refl.
  - apply String.eqb_eq in H; subst; reflexivity.
  - inversion H; subst; apply String.eqb_refl.
Qed.

Lemma jsval_eqb_refl a : jsval_eqb a a = true.
Proof. apply jsval_eqb_eq; reflexivity. Qed.

Definition is_undef (v : jsval) : bool :=
  match v with JUndef => true | _ => false end.

Definition is_nullish (v : jsval) : bool :=
  match v with JUndef | JNull => true | _ => false end.

(* ------------------------------------------------------------------------- *)
(** ** Strings (ASCII) *)

Definition is_digit (c : ascii) : bool :=
  let n := nat_of_ascii c in (48 <=? n)%nat && (n <=? 57)%nat.

Definition is_upper (c : ascii) : bool :=
  let n := nat_of_ascii c in (65 <=? n)%nat && (n <=? 90)%nat.

Definition is_lower (c : ascii) : bool :=
  let n := nat_of_ascii c in (97 <=? n)%nat && (n <=? 122)%nat.

(** JavaScript white space and line terminators, as far as ASCII goes. *)
Definition is_space (c : ascii) : bool :=
  let n := nat_of_ascii c in
  (n =? 32)%nat || ((9 <=? n)%nat && (n <=? 13)%nat).

(** [String.prototype.toLowerCase] on ASCII. *)
Fixpoint to_lower (s : string) : string :=
  match s with
  | EmptyString => EmptyString
  | String c r =>
      String (if is_upper c then ascii_of_nat (nat_of_ascii c + 32) else c)
             (to_lower r)
  end.

Fixpoint trim_start (s : string) : string :=
  match s with
  | String c r => if is_space c then trim_start r else s
  | EmptyString => EmptyString
  end.

Fixpoint rev_string (s : string) : string :=
  match s with
  | EmptyString => EmptyString
  | String c r => String.append (rev_string r) (String c EmptyString)
  end.

(** [String.prototype.trim] *)
Definition trim (s : string) : string :=
  rev_string (trim_start (rev_string (trim_start s))).

(** [hay.includes(needle)] *)
Definition includes (hay needle : string) : bool :=
  match String.index 0 needle hay with Some _ => true | None => false end.

(** [s.startsWith(p)] *)
Definition starts_with (s p : string) : bool := String.prefix p s.

Fixpoint all_chars (f : ascii -> bool) (s : string) : bool :=
  match s with
  | EmptyString => true
  | String c r => f c && all_chars f r
  end.

(** Digit value of [c] in base [radix] (2..36), if any. *)
Definition digit_value (radix : Z) (c : ascii) : option Z :=
  let n := Z.of_nat (nat_of_ascii c) in
  let d := if is_digit c then Some (n - 48)
           else if is_lower c then Some (n - 87)
           else if is_upper c then Some (n - 55) else None in
  match d with
  | Some v => if v <? radix then Some v else None
  | None => None
  end.

(** Longest prefix of digits in base [radix], accumulated onto [acc];
    [None] when there is no digit at all. *)
Fixpoint digits_prefix (radix : Z) (s : string) (acc : option Z) : option Z :=
  match s with
  | EmptyString => acc
  | String c r =>
      match digit_value radix c with
      | Some d =>
          digits_prefix radix r
            (Some (radix * match acc with Some a => a | None => 0 end + d))
      | None => acc
      end
  end.

(** [parseInt(string)] with no radix: leading white space, an optional sign,
    an optional [0x]/[0X] prefix selecting base 16, then the longest run of
    digits; [None] stands for [NaN]. *)
Definition parse_int_string (s : string) : option Z :=
  let s1 := trim_start s in
  let '(sign, s2) :=
    match s1 with
    | String "-" r => (-1, r)
    | String "+" r => (1, r)
    | _ => (1, s1)
    end in
  let '(radix, s3) :=
    match s2 with
    | String "0" (String "x" r) => (16, r)
    | String "0" (String "X" r) => (16, r)
    | _ => (10, s2)
    end in
  option_map (fun v => sign * v) (digits_prefix radix s3 None).

(** [parseInt(v)]: the argument is first converted with [String(v)];
    ["null"], ["undefined"], ["true"] and ["false"] have no leading digit. *)
Definition parse_int (v : jsval) : option Z :=
  match v with
  | JNum z => Some z
  | JStr s => parse_int_string s
  | _ => None
  end.

(** The value of a numeric string, as [Number(s)] reads it. *)
Inductive numeral : Type :=
| NumInt (z : Z)        (* a numeral whose value is an integer *)
| NumNaN                (* not a numeral: [NaN] *)
| NumNonInt.            (* a numeral whose value is not an integer, or [Infinity] *)

(** The longest prefix of [s] whose characters satisfy [f], and the rest. *)
Fixpoint span (f : ascii -> bool) (s : string) : string * string :=
  match s with
  | String c r => if f c then let '(p, q) := span f r in (String c p, q) else ("", s)
  | EmptyString => ("", "")
  end.

Definition split_sign (s : string) : Z * string :=
  match s with
  | String "-" r => (-1, r)
  | String "+" r => (1, r)
  | _ => (1, s)
  end.

(** The exponent part after [e] or [E]: an optionally signed run of digits. *)
Definition exponent_value (s : string) : option Z :=
  let '(sg, r) := split_sign s in
  let '(ds, rest) := span is_digit r in
  if negb (String.eqb ds "") && String.eqb rest "" then
    option_map (fun v => sg * v) (digits_prefix 10 ds None)
  else None.

(** An unsigned StrUnsignedDecimalLiteral: [Infinity], or digits with an
    optional fraction ([.] then digits, at least one digit in all) and an
    optional exponent.  Its value is [m * 10^(e - f)] for the digits [m], the
    exponent [e] and [f] digits after the point. *)
Definition unsigned_decimal (s : string) : numeral :=
  if String.eqb s "Infinity" then NumNonInt else
  let '(ip, r1) := span is_digit s in
  let '(fp, r2) := match r1 with String "." r => span is_digit r | _ => ("", r1) end in
  let has_point := match r1 with String "." _ => true | _ => false end in
  if String.eqb ip "" && String.eqb fp "" then NumNaN else
  let ex := match r2 with
            | EmptyString => Some 0
            | String "e" r | String "E" r => exponent_value r
            | _ => None
            end in
  match ex with
  | None => NumNaN
  | Some e =>
      let m := match digits_prefix 10 (ip ++ fp) None with Some v => v | None => 0 end in
      let k := e - Z.of_nat (String.length fp) in
      if 0 <=? k then NumInt (m * 10 ^ k)
      else if m mod 10 ^ (- k) =? 0 then NumInt (m / 10 ^ (- k)) else NumNonInt
  end.

(** [StringToNumber]: surrounding white space is ignored and the empty
    string is 0; otherwise an unsigned [0x]/[0o]/[0b] integer literal, or an
    optionally signed decimal literal. *)
Definition string_numeral (s : string) : numeral :=
  let t := trim s in
  if String.eqb t "" then NumInt 0 else
  let radix := match t with
               | String "0" (String c _) =>
                   if (c =? "x")%char || (c =? "X")%char then 16
                   else if (c =? "o")%char || (c =? "O")%char then 8
                   else if (c =? "b")%char || (c =? "B")%char then 2 else 10
               | _ => 10
               end in
  if radix =? 10 then
    let '(sg, body) := split_sign t in
    match unsigned_decimal body with NumInt v => NumInt (sg * v) | n => n end
  else
    let body := match t with String _ (String _ r) => r | _ => "" end in
    if negb (String.eqb body "") &&
       all_chars (fun c => match digit_value radix c with Some _ => true | None => false end) body
    then match digits_prefix radix body None with Some v => NumInt v | None => NumNaN end
    else NumNaN.

(** [Number(s)] on strings, in the integer model: a numeral with an integer
    value is that integer, [None] is [NaN].  The model's numbers are
    integers, so a numeral whose value is not an integer (["12.5"],
    ["1.5e-1"]) or is [Infinity] has no value here either: [string_numeral]
    tells it apart from [NaN] as [NumNonInt], and the statements that depend
    on such a string exclude it.  Integers are exact, where a double rounds
    beyond 2^53 and overflows to [Infinity] near 1.8e308. *)
Definition string_to_number (s : string) : option Z :=
  match string_numeral s with NumInt z => Some z | _ => None end.


(** The ToNumber coercion applied by [-], [<], [>=] and the like; [None]
    is [NaN]. *)
Definition to_number (v : jsval) : option Z :=
  match v with
  | JUndef => None
  | JNull => Some 0
  | JBool b => Some (if b then 1 else 0)
  | JNum z => Some z
  | JStr s => string_to_number s
  end.

(** [a - b] on numbers; [None] is [NaN]. *)
Definition js_sub (a b : jsval) : option Z :=
  match to_number a, to_number b with
  | Some x, Some y => Some (x - y)
  | _, _ => None
  end.

(** [Math.ceil(x / 1000)] *)
Definition ceil_div_1000 (x : Z) : Z := - ((- x) / 1000).

(* ------------------------------------------------------------------------- *)
(** ** Insertion-ordered maps ([Map]) and [Array.prototype.sort] *)

Section Maps.
Context {K V : Type} (keqb : K -> K -> bool).

Fixpoint map_get (k : K) (m : list (K * V)) : option V :=
  match m with
  | [] => None
  | (k', v) :: r => if keqb k' k then Some v else map_get k r
  end.

Definition map_has (k : K) (m : list (K * V)) : bool :=
  match map_get k m with Some _ => true | None => false end.

(** [m.set(k, v)]: in place when [k] is present, appended otherwise. *)
Definition map_set (k : K) (v : V) (m : list (K * V)) : list (K * V) :=
  if map_has k m
  then map (fun '(k', v') => if keqb k' k then (k', v) else (k', v')) m
  else m ++ [(k, v)].

(** [m.delete(k)] *)
Definition map_delete (k : K) (m : list (K * V)) : list (K * V) :=
  filter (fun '(k', _) => negb (keqb k' k)) m.
End Maps.

Section Sort.
Context {A : Type} (cmp : A -> A -> option Z).

(** [cmp a b] is the comparator's result; the engine only asks whether it
    is negative, so [NaN] counts as "not before". *)
Definition before (a b : A) : bool :=
  match cmp a b with Some z => z <? 0 | None => false end.

Fixpoint insert_sorted (x : A) (l : list A) : list A :=
  match l with
  | [] => [x]
  | y :: r => if before y x then y :: insert_sorted x r else x :: y :: r
  end.

(** [Array.prototype.sort] is stable (ECMAScript 2019); for a consistent
    comparator every stable sort yields this list. *)
Fixpoint stable_sort (l : list A) : list A :=
  match l with
  | [] => []
  | x :: r => insert_sorted x (stable_sort r)
  end.
End Sort.

(* ------------------------------------------------------------------------- *)
(** ** Configuration *)

(** The values read from [process.env] (lines 35-50), with their defaults in
    [default_config]. *)
Record config : Type := mk_config {
  PEER_TIMEOUT : Z;               (* seconds *)
  RATE_LIMIT_MAX_REQUESTS : Z;
  RATE_LIMIT_MAX_ANNOUNCES : Z;
  DISABLE_RATE_LIMIT : bool;
  MAX_VIOLATIONS : Z;
  BLOCK_DURATION : Z              (* milliseconds *)
}.

Definition default_config : config :=
  {| PEER_TIMEOUT := 600; RATE_LIMIT_MAX_REQUESTS := 120;
     RATE_LIMIT_MAX_ANNOUNCES := 20; DISABLE_RATE_LIMIT := false;
     MAX_VIOLATIONS := 10; BLOCK_DURATION := 5 * 60 * 1000 |}.

Definition MAX_ROOMS : Z := 100.
Definition RATE_LIMIT_WINDOW : Z := 60 * 1000.
Definition MAX_RATE_LIMIT_ENTRIES : Z := 1000.
(** [const BLOCKED_IPS = new Set()]: never populated by the code. *)
Definition BLOCKED_IPS : list string := [].
Definition NONCE_CLEANUP_INTERVAL : Z := 5 * 60 * 1000.
Definition MAX_NONCES : Z := 5000.
Definition MAX_ROOM_ID_LENGTH : Z := 100.
Definition MAX_NAME_LENGTH : Z := 50.

Definition slen (s : string) : Z := Z.of_nat (String.length s).

(* ------------------------------------------------------------------------- *)
(** ** Announce payload and room record *)

Module Data.
(** The parsed JSON body of [POST /announce]; an absent field is
    [JUndef]. *)
Record t : Type := mk {
  roomId : jsval; gameType : jsval; status : jsval; appBaseUrl : jsval;
  public : jsval;
  player1Name : jsval; player1WalletAddress : jsval;
  player1WalletPuzzleHash : jsval; player1PublicKey : jsval;
  player1IdentityPublicKey : jsval; player1IdentityAddress : jsval;
  player1PeerId : jsval;
  player2Name : jsval; player2WalletAddress : jsval;
  player2WalletPuzzleHash : jsval; player2PublicKey : jsval;
  player2IdentityPublicKey : jsval; player2IdentityAddress : jsval;
  player2PeerId : jsval;
  stateChannelCoinId : jsval; wagerAmount : jsval; activeGameId : jsval;
  timestamp : jsval; nonce : jsval; createdAt : jsval
}.

(** The body [{}]: every field absent. *)
Definition empty : t :=
  mk JUndef JUndef JUndef JUndef JUndef JUndef JUndef JUndef JUndef JUndef
     JUndef JUndef JUndef JUndef JUndef JUndef JUndef JUndef JUndef JUndef
     JUndef JUndef JUndef JUndef JUndef.
End Data.

Module Room.
(** A stored room object (lines 690-725). *)
Record t : Type := mk {
  roomId : jsval; gameType : jsval; status : jsval; appBaseUrl : jsval;
  public : jsval;
  player1Name : jsval; player1WalletAddress : jsval;
  player1WalletPuzzleHash : jsval; player1PublicKey : jsval;
  player1IdentityPublicKey : jsval; player1IdentityAddress : jsval;
  player1PeerId : jsval;
  player2Name : jsval; player2WalletAddress : jsval;
  player2WalletPuzzleHash : jsval; player2PublicKey : jsval;
  player2IdentityPublicKey : jsval; player2IdentityAddress : jsval;
  player2PeerId : jsval;
  stateChannelCoinId : jsval; wagerAmount : jsval; activeGameId : jsval;
  createdAt : jsval;   (* [data.createdAt || Date.now()] *)
  updatedAt : Z        (* always [Date.now()] *)
}.
End Room.

Definition rooms_t : Type := list (jsval * Room.t).

(* ------------------------------------------------------------------------- *)
(** ** URL parsing ([new URL(s)]) *)

Definition is_scheme_char (c : ascii) : bool :=
  is_upper c || is_lower c || is_digit c ||
  Ascii.eqb c "+" || Ascii.eqb c "-" || Ascii.eqb c ".".

Fixpoint split_at_colon (s : string) : option (string * string) :=
  match s with
  | EmptyString => None
  | String ":" r => Some (EmptyString, r)
  | String c r =>
      match split_at_colon r with
      | Some (a, b) => Some (String c a, b)
      | None => None
      end
  end.

Fixpoint strip_slashes (s : string) : string :=
  match s with
  | String "/" r | String "\" r => strip_slashes r
  | _ => s
  end.

Fixpoint host_part (s : string) : string :=
  match s with
  | EmptyString => EmptyString
  | String c r =>
      if Ascii.eqb c "/" || Ascii.eqb c "?" || Ascii.eqb c "#" || Ascii.eqb c "\"
      then EmptyString else String c (host_part r)
  end.

(** Whether [new URL(s)] (no base) succeeds, following the WHATWG parser as
    far as the scheme and host go: an absolute URL needs a scheme (a letter,
    then letters, digits, [+], [-], [.]) and a colon; the special schemes
    other than [file] need a non-empty host.  Host code points, ports and
    IPv6 literals are not checked. *)
Definition url_parses (s : string) : bool :=
  let s := trim s in
  match split_at_colon s with
  | Some (String c sch, rest) =>
      (is_upper c || is_lower c) && all_chars is_scheme_char sch &&
      let scheme := to_lower (String c sch) in
      if existsb (String.eqb scheme) ["http"; "https"; "ws"; "wss"; "ftp"]%string
      then negb (String.eqb (host_part (strip_slashes rest)) "")
      else true
  | _ => false
  end.

(* ------------------------------------------------------------------------- *)
(** ** Nonce set and [validateAnnouncement] (lines 261-425) *)

(** [usedNonces] (a [Set], in insertion order) and the pending
    [setTimeout] callbacks that delete a nonce, as (due time, nonce). *)
Record nonce_store : Type := mk_nonce_store {
  usedNonces : list jsval;
  nonceTimers : list (Z * jsval)
}.

Definition set_has (x : jsval) (s : list jsval) : bool := existsb (jsval_eqb x) s.

Definition set_delete (x : jsval) (s : list jsval) : list jsval :=
  filter (fun y => negb (jsval_eqb y x)) s.

(** [if (cond) errors.push(msg)] *)
Definition err_if (cond : bool) (msg : string) : list string :=
  if cond then [msg] else [].

Definition is_string (v : jsval) : bool :=
  match v with JStr _ => true | _ => false end.

Definition str_of (v : jsval) : string :=
  match v with JStr s => s | _ => EmptyString end.

Definition validGameTypes : list string :=
  ["rockpaperscissors"; "calpoker"; "battleship"; "tictactoe"]%string.

Definition validStatuses : list string :=
  ["waiting"; "active"; "finished"; "cancelled"]%string.

Definition is_room_id_char (c : ascii) : bool :=
  is_upper c || is_lower c || is_digit c || Ascii.eqb c "_" || Ascii.eqb c "-".

Definition chia_address (s : string) : bool :=
  starts_with s "xch1" || starts_with s "txch1".

(** The [if (data.nonce) { ... }] block: the replay guard. *)
Definition check_nonce (nonce : jsval) (now : Z) (ns : nonce_store)
  : list string * nonce_store :=
  if truthy nonce then
    let used := usedNonces ns in
    let '(errs, used') :=
      if set_has nonce used
      then (["Duplicate nonce (replay attack detected)"]%string, used)
      else if MAX_NONCES <=? Z.of_nat (List.length used)
      then (* remove the first inserted entry, then add *)
           ([], set_delete (hd JUndef used) used ++ [nonce])
      else ([], used ++ [nonce]) in
    (errs, mk_nonce_store used'
             (nonceTimers ns ++ [(now + NONCE_CLEANUP_INTERVAL, nonce)]))
  else ([], ns).

Definition validate_fields (d : Data.t) (now : Z) : list string :=
  (* roomId *)
  (let v := Data.roomId d in
   if negb (truthy v) || negb (is_string v)
   then ["Missing or invalid roomId"]
   else if MAX_ROOM_ID_LENGTH <? slen (str_of v)
   then ["roomId too long (max 100 characters)"]
   else err_if (negb (all_chars is_room_id_char (str_of v)))
          "roomId contains invalid characters (alphanumeric, dash, underscore only)")
  (* gameType *)
  ++ (let v := Data.gameType d in
      if negb (is_nullish v) then
        if negb (is_string v) then ["Invalid gameType (must be string or null)"]
        else err_if (negb (existsb (String.eqb (to_lower (str_of v))) validGameTypes))
               "Invalid gameType. Must be one of: rockpaperscissors, calpoker, battleship, tictactoe or null"
      else [])
  (* player1Name *)
  ++ (let v := Data.player1Name d in
      if negb (truthy v) || negb (is_string v) then ["Missing or invalid player1Name"]
      else if MAX_NAME_LENGTH <? slen (str_of v)
      then ["player1Name too long (max 50 characters)"]
      else err_if (slen (trim (str_of v)) =? 0) "player1Name cannot be empty")
  (* player1WalletAddress *)
  ++ (let v := Data.player1WalletAddress d in
      if negb (truthy v) || negb (is_string v)
      then ["Missing or invalid player1WalletAddress"]
      else if negb (chia_address (str_of v))
      then ["Invalid wallet address format (must start with xch1 or txch1)"]
      else err_if (100 <? slen (str_of v)) "Wallet address too long")
  (* player1WalletPuzzleHash *)
  ++ (let v := Data.player1WalletPuzzleHash d in
      if negb (is_nullish v) then
        if negb (is_string v)
        then ["Invalid player1WalletPuzzleHash (must be string or null)"]
        else err_if (100 <? slen (str_of v)) "player1WalletPuzzleHash too long"
      else [])
  ++ (let v := Data.player1PublicKey d in
      err_if (negb (is_nullish v) && (negb (is_string v) || (200 <? slen (str_of v))))
        "Invalid player1PublicKey (must be string, max 200 chars)")
  ++ (let v := Data.player1IdentityPublicKey d in
      err_if (negb (is_nullish v) && (negb (is_string v) || (200 <? slen (str_of v))))
        "Invalid player1IdentityPublicKey (must be string, max 200 chars)")
  ++ (let v := Data.player1IdentityAddress d in
      err_if (negb (is_nullish v) && (negb (is_string v) || (100 <? slen (str_of v))))
        "Invalid player1IdentityAddress (must be string, max 100 chars)")
  (* player1PeerId *)
  ++ (let v := Data.player1PeerId d in
      if negb (truthy v) || negb (is_string v) then ["Missing or invalid player1PeerId"]
      else err_if (200 <? slen (str_of v)) "player1PeerId too long (max 200 characters)")
  (* appBaseUrl *)
  ++ (let v := Data.appBaseUrl d in
      if negb (truthy v) || negb (is_string v) then ["Missing or invalid appBaseUrl"]
      else err_if (negb (url_parses (str_of v))) "appBaseUrl must be a valid URL")
  (* player2 fields *)
  ++ (let v := Data.player2Name d in
      err_if (negb (is_nullish v) && (negb (is_string v) || (MAX_NAME_LENGTH <? slen (str_of v))))
        "Invalid player2Name (must be string, max 50 chars, or null)")
  ++ (let v := Data.player2WalletAddress d in
      if negb (is_nullish v) then
        if negb (is_string v) then ["Invalid player2WalletAddress (must be string or null)"]
        else err_if (negb (chia_address (str_of v)))
               "Invalid player2WalletAddress format (must start with xch1 or txch1)"
      else [])
  ++ (let v := Data.stateChannelCoinId d in
      err_if (negb (is_nullish v) && (negb (is_string v) || (100 <? slen (str_of v))))
        "Invalid stateChannelCoinId (must be string, max 100 chars, or null)")
  ++ (let v := Data.activeGameId d in
      err_if (negb (is_nullish v) && (negb (is_string v) || (200 <? slen (str_of v))))
        "Invalid activeGameId (must be string, max 200 chars, or null)")
  (* wagerAmount *)
  ++ (let v := Data.wagerAmount d in
      if negb (is_undef v) then
        match parse_int v with
        | None => ["Invalid wagerAmount (must be non-negative integer)"]
        | Some w =>
            if w <? 0 then ["Invalid wagerAmount (must be non-negative integer)"]
            else err_if (1000000000000 <? w) "wagerAmount too large"
        end
      else [])
  (* status *)
  ++ (let v := Data.status d in
      err_if (truthy v && negb (is_string v && existsb (String.eqb (str_of v)) validStatuses))
        "Invalid status. Must be one of: waiting, active, finished, cancelled")
  (* public *)
  ++ (let v := Data.public d in
      err_if (negb (is_undef v) && negb (match v with JBool _ => true | _ => false end))
        "Invalid public flag (must be boolean)")
  (* timestamp: [Math.abs(Date.now() - data.timestamp) > 30000]; NaN is not > *)
  ++ (let v := Data.timestamp d in
      if truthy v then
        match js_sub (JNum now) v with
        | Some diff => err_if (30000 <? Z.abs diff) "Request timestamp too far from server time"
        | None => []
        end
      else []).

(** [validateAnnouncement(data)]: the field checks, then the nonce guard,
    which records the nonce whatever the other checks found. *)
Definition validateAnnouncement (d : Data.t) (now : Z) (ns : nonce_store)
  : list string * nonce_store :=
  let errs := validate_fields d now in
  let '(nerrs, ns') := check_nonce (Data.nonce d) now ns in
  (errs ++ nerrs, ns').

(* ------------------------------------------------------------------------- *)
(** ** Room registry: [POST /announce] after validation (lines 639-728) *)

Definition rooms_get (k : jsval) (rs : rooms_t) : option Room.t := map_get jsval_eqb k rs.
Definition rooms_set (k : jsval) (r : Room.t) (rs : rooms_t) : rooms_t := map_set jsval_eqb k r rs.
Definition rooms_delete (k : jsval) (rs : rooms_t) : rooms_t := map_delete jsval_eqb k rs.
Definition rooms_size (rs : rooms_t) : Z := Z.of_nat (List.length rs).

(** The comparator [(a, b) => a[1].createdAt - b[1].createdAt]. *)
Definition by_createdAt (a b : jsval * Room.t) : option Z :=
  js_sub (Room.createdAt (snd a)) (Room.createdAt (snd b)).

(** Enforce room limit (lines 639-647): at [MAX_ROOMS] or more, delete the
    first entry of the entries sorted by [createdAt]. *)
Definition enforce_room_limit (rs : rooms_t) : rooms_t :=
  if MAX_ROOMS <=? rooms_size rs then
    match stable_sort by_createdAt rs with
    | (k, _) :: _ => rooms_delete k rs
    | [] => rs
    end
  else rs.

(** [x !== undefined ? x : old] *)
Definition unless_undef (x old : jsval) : jsval := if is_undef x then old else x.

(** [if (x) room.f = x] *)
Definition if_truthy (x old : jsval) : jsval := if truthy x then x else old.

(** Update existing room (lines 653-686). *)
Definition update_room (r : Room.t) (d : Data.t) (now : Z) : Room.t :=
  {| Room.roomId := Room.roomId r;
     Room.gameType := unless_undef (Data.gameType d) (Room.gameType r);
     Room.status := js_or (Data.status d) (Room.status r);
     Room.appBaseUrl := if_truthy (Data.appBaseUrl d) (Room.appBaseUrl r);
     Room.public := unless_undef (Data.public d) (Room.public r);
     Room.player1Name := if_truthy (Data.player1Name d) (Room.player1Name r);
     Room.player1WalletAddress :=
       if_truthy (Data.player1WalletAddress d) (Room.player1WalletAddress r);
     Room.player1WalletPuzzleHash :=
       if_truthy (Data.player1WalletPuzzleHash d) (Room.player1WalletPuzzleHash r);
     Room.player1PublicKey := if_truthy (Data.player1PublicKey d) (Room.player1PublicKey r);
     Room.player1IdentityPublicKey :=
       if_truthy (Data.player1IdentityPublicKey d) (Room.player1IdentityPublicKey r);
     Room.player1IdentityAddress :=
       if_truthy (Data.player1IdentityAddress d) (Room.player1IdentityAddress r);
     Room.player1PeerId := if_truthy (Data.player1PeerId d) (Room.player1PeerId r);
     Room.player2Name := unless_undef (Data.player2Name d) (Room.player2Name r);
     Room.player2WalletAddress :=
       unless_undef (Data.player2WalletAddress d) (Room.player2WalletAddress r);
     Room.player2WalletPuzzleHash :=
       unless_undef (Data.player2WalletPuzzleHash d) (Room.player2WalletPuzzleHash r);
     Room.player2PublicKey := unless_undef (Data.player2PublicKey d) (Room.player2PublicKey r);
     Room.player2IdentityPublicKey :=
       unless_undef (Data.player2IdentityPublicKey d) (Room.player2IdentityPublicKey r);
     Room.player2IdentityAddress :=
       unless_undef (Data.player2IdentityAddress d) (Room.player2IdentityAddress r);
     Room.player2PeerId := unless_undef (Data.player2PeerId d) (Room.player2PeerId r);
     Room.stateChannelCoinId :=
       unless_undef (Data.stateChannelCoinId d) (Room.stateChannelCoinId r);
     Room.wagerAmount := unless_undef (Data.wagerAmount d) (Room.wagerAmount r);
     Room.activeGameId := unless_undef (Data.activeGameId d) (Room.activeGameId r);
     Room.createdAt := Room.createdAt r;
     Room.updatedAt := now |}.

(** Create new room (lines 690-725). *)
Definition new_room (d : Data.t) (now : Z) : Room.t :=
  {| Room.roomId := Data.roomId d;
     Room.gameType := js_or (Data.gameType d) JNull;
     Room.status := js_or (Data.status d) (JStr "waiting");
     Room.appBaseUrl := Data.appBaseUrl d;
     Room.public := unless_undef (Data.public d) (JBool true);
     Room.player1Name := Data.player1Name d;
     Room.player1WalletAddress := Data.player1WalletAddress d;
     Room.player1WalletPuzzleHash := js_or (Data.player1WalletPuzzleHash d) JNull;
     Room.player1PublicKey := js_or (Data.player1PublicKey d) JNull;
     Room.player1IdentityPublicKey := js_or (Data.player1IdentityPublicKey d) JNull;
     Room.player1IdentityAddress := js_or (Data.player1IdentityAddress d) JNull;
     Room.player1PeerId := Data.player1PeerId d;
     Room.player2Name := js_or (Data.player2Name d) JNull;
     Room.player2WalletAddress := js_or (Data.player2WalletAddress d) JNull;
     Room.player2WalletPuzzleHash := js_or (Data.player2WalletPuzzleHash d) JNull;
     Room.player2PublicKey := js_or (Data.player2PublicKey d) JNull;
     Room.player2IdentityPublicKey := js_or (Data.player2IdentityPublicKey d) JNull;
     Room.player2IdentityAddress := js_or (Data.player2IdentityAddress d) JNull;
     Room.player2PeerId := js_or (Data.player2PeerId d) JNull;
     Room.stateChannelCoinId := js_or (Data.stateChannelCoinId d) JNull;
     Room.wagerAmount := js_or (Data.wagerAmount d) (JNum 0);
     Room.activeGameId := js_or (Data.activeGameId d) JNull;
     Room.createdAt := js_or (Data.createdAt d) (JNum now);
     Room.updatedAt := now |}.

(** Lines 639-728: enforce the room limit, then get or create the record.
    The updated record is the same object, so the map keeps its position. *)
Definition upsert_room (rs : rooms_t) (d : Data.t) (now : Z) : rooms_t * Room.t :=
  let rs1 := enforce_room_limit rs in
  match rooms_get (Data.roomId d) rs1 with
  | Some r => let r' := update_room r d now in (rooms_set (Data.roomId d) r' rs1, r')
  | None => let r' := new_room d now in (rooms_set (Data.roomId d) r' rs1, r')
  end.

(** Outcome of the [POST /announce] handler. *)
Inductive post_result : Type :=
| PostRejected (errors : list string)   (* 400 *)
| PostOk (room : Room.t).               (* 200 *)

(** [app.post('/announce', ...)] after the rate limiter. *)
Definition post_announce (rs : rooms_t) (ns : nonce_store) (d : Data.t) (now : Z)
  : post_result * rooms_t * nonce_store :=
  let '(errors, ns') := validateAnnouncement d now ns in
  match errors with
  | _ :: _ => (PostRejected errors, rs, ns')
  | [] => let '(rs', r) := upsert_room rs d now in (PostOk r, rs', ns')
  end.

(* ------------------------------------------------------------------------- *)
(** ** Expiry sweep (lines 524-533, 755-761, 878-886) *)

(** [room.updatedAt || room.createdAt] *)
Definition last_activity (r : Room.t) : jsval :=
  js_or (JNum (Room.updatedAt r)) (Room.createdAt r).

(** [lastActivity && (now - lastActivity > PEER_TIMEOUT * 1000)] *)
Definition room_expired (cfg : config) (now : Z) (r : Room.t) : bool :=
  let la := last_activity r in
  truthy la &&
  match js_sub (JNum now) la with
  | Some age => PEER_TIMEOUT cfg * 1000 <? age
  | None => false
  end.

(** The loop [for (const [roomId, room] of rooms.entries()) if (...)
    rooms.delete(roomId)], shared by the three call sites. *)
Definition sweep_expired (cfg : config) (now : Z) (rs : rooms_t) : rooms_t :=
  filter (fun '(_, r) => negb (room_expired cfg now r)) rs.

(** The room cleanup interval (lines 874-907): the sweep, then the hard
    limit, removing the [size - MAX_ROOMS] oldest rooms by [createdAt]. *)
Definition room_cleanup_tick (cfg : config) (now : Z) (rs : rooms_t) : rooms_t :=
  let rs1 := sweep_expired cfg now rs in
  if MAX_ROOMS <? rooms_size rs1 then
    let toRemove := Z.to_nat (rooms_size rs1 - MAX_ROOMS) in
    fold_left (fun acc '(k, _) => rooms_delete k acc)
      (firstn toRemove (stable_sort by_createdAt rs1)) rs1
  else rs1.

(* ------------------------------------------------------------------------- *)
(** ** Listing rooms: [GET /announce] (lines 439-482, 514-622) *)

(** [req.query]: each parameter absent or a string. *)
Record query_params : Type := mk_query {
  q_gameType : option string; q_status : option string; q_search : option string;
  q_minWager : option string; q_maxWager : option string; q_sort : option string;
  q_offset : option string; q_limit : option string; q_includePrivate : option string
}.

Definition no_query : query_params :=
  mk_query None None None None None None None None None.

Definition parse_int_opt (o : option string) : option Z :=
  match o with Some s => parse_int_string s | None => None end.

(** [validateQueryParams(req)] *)
Definition validateQueryParams (q : query_params) : list string :=
  (match q_offset q with
   | Some s => err_if (match parse_int_string s with Some o => o <? 0 | None => true end)
                 "Invalid offset (must be non-negative integer)"
   | None => [] end)
  ++ (match q_limit q with
      | Some s => err_if (match parse_int_string s with
                          | Some l => (l <? 1) || (200 <? l) | None => true end)
                    "Invalid limit (must be between 1 and 200)"
      | None => [] end)
  ++ (match q_minWager q with
      | Some s => err_if (match parse_int_string s with Some w => w <? 0 | None => true end)
                    "Invalid minWager (must be non-negative integer)"
      | None => [] end)
  ++ (match q_maxWager q with
      | Some s => err_if (match parse_int_string s with Some w => w <? 0 | None => true end)
                    "Invalid maxWager (must be non-negative integer)"
      | None => [] end)
  ++ (match q_includePrivate q with
      | Some s => err_if (negb (existsb (String.eqb s) ["true"; "false"; "1"; "0"]))
                    "Invalid includePrivate (must be true/false, 1/0)"
      | None => [] end).

(** [sanitizeSearch(query)]: the first 100 characters, without the
    characters less-than, greater-than, double quote (code 34) and
    apostrophe. *)
Definition sanitizeSearch (q : option string) : string :=
  match q with
  | None => EmptyString
  | Some s =>
      let fix drop (s : string) : string :=
        match s with
        | EmptyString => EmptyString
        | String c r =>
            if Ascii.eqb c "<" || Ascii.eqb c ">" || Ascii.eqb c (ascii_of_nat 34) || Ascii.eqb c "'"
            then drop r else String c (drop r)
        end in
      drop (String.substring 0 100 s)
  end.

(** [x || d] on an optional string. *)
Definition str_or (o : option string) (d : string) : string :=
  match o with Some s => if String.eqb s "" then d else s | None => d end.

(** [parseInt(x) || d]: [NaN] and [0] both give [d]. *)
Definition int_or (o : option string) (d : Z) : Z :=
  match parse_int_opt o with Some z => if z =? 0 then d else z | None => d end.

(** [parseInt(req.query.maxWager) || Infinity]; [None] is [Infinity]. *)
Definition max_wager_of (o : option string) : option Z :=
  match parse_int_opt o with Some z => if z =? 0 then None else Some z | None => None end.

(** [wager >= minWager && wager <= maxWager] with [wager] coerced. *)
Definition wager_in_range (w : jsval) (minW : Z) (maxW : option Z) : bool :=
  match to_number w with
  | Some x => (minW <=? x) && match maxW with Some m => x <=? m | None => true end
  | None => false
  end.

(** [(v && v.toLowerCase().includes(needle))]; a stored name or id is a
    string whenever it is truthy (validation makes sure of it). *)
Definition field_matches (v : jsval) (needle : string) : bool :=
  match v with JStr s => truthy v && includes (to_lower s) needle | _ => false end.

(** The search predicate (lines 573-579).  The records never have [player1]
    or [player2] sub-objects, so the last two disjuncts are always false. *)
Definition search_matches (needle : string) (r : Room.t) : bool :=
  field_matches (Room.roomId r) needle || field_matches (Room.player1Name r) needle ||
  field_matches (Room.player2Name r) needle.

Definition wager_or_0 (r : Room.t) : jsval := js_or (Room.wagerAmount r) (JNum 0).

Definition room_cmp (sort : string) (a b : Room.t) : option Z :=
  if String.eqb sort "oldest" then js_sub (Room.createdAt a) (Room.createdAt b)
  else if String.eqb sort "wager_high" then js_sub (wager_or_0 b) (wager_or_0 a)
  else if String.eqb sort "wager_low" then js_sub (wager_or_0 a) (wager_or_0 b)
  else js_sub (Room.createdAt b) (Room.createdAt a).

(** The filtered and sorted list (lines 536-597), before pagination. *)
Definition filter_sort (q : query_params) (rs : rooms_t) : list Room.t :=
  let gameType := str_or (q_gameType q) "all" in
  let status := str_or (q_status q) "all" in
  let search := sanitizeSearch (q_search q) in
  let minWager := int_or (q_minWager q) 0 in
  let maxWager := max_wager_of (q_maxWager q) in
  let sort := str_or (q_sort q) "newest" in
  let includePrivate :=
    match q_includePrivate q with
    | Some s => String.eqb s "true" || String.eqb s "1" | None => false end in
  let l0 := map snd rs in
  let l1 := if includePrivate then l0
            else filter (fun r => negb (jsval_eqb (Room.public r) (JBool false))) l0 in
  let l2 := if negb (String.eqb gameType "all")
            then filter (fun r => jsval_eqb (Room.gameType r) (JStr gameType)) l1 else l1 in
  let l3 := if negb (String.eqb status "all")
            then filter (fun r => jsval_eqb (Room.status r) (JStr status)) l2 else l2 in
  let l4 := filter (fun r => wager_in_range (wager_or_0 r) minWager maxWager) l3 in
  let l5 := if negb (String.eqb search "")
            then filter (search_matches (to_lower search)) l4 else l4 in
  stable_sort (room_cmp sort) l5.

(** [list.slice(start, end)] for [0 <= start]. *)
Definition js_slice {A} (l : list A) (start end_ : Z) : list A :=
  firstn (Z.to_nat (end_ - start)) (skipn (Z.to_nat start) l).

Record list_response : Type := mk_list_response {
  lr_complete : Z; lr_total : Z; lr_offset : Z; lr_limit : Z; lr_rooms : list Room.t
}.

Inductive get_result : Type :=
| GetRejected (errors : list string)     (* 400 *)
| GetOk (resp : list_response).          (* 200 *)

(** [app.get('/announce', ...)] after the rate limiter: validation, the
    expiry sweep, then filter, sort and paginate. *)
Definition get_announce (cfg : config) (rs : rooms_t) (q : query_params) (now : Z)
  : get_result * rooms_t :=
  match validateQueryParams q with
  | _ :: _ as errors => (GetRejected errors, rs)
  | [] =>
      let rs' := sweep_expired cfg now rs in
      let offset := Z.max 0 (int_or (q_offset q) 0) in
      let limit := Z.min (Z.max 1 (int_or (q_limit q) 50)) 200 in
      let roomList := filter_sort q rs' in
      let total := Z.of_nat (List.length roomList) in
      let page := js_slice roomList offset (offset + limit) in
      (GetOk (mk_list_response (Z.of_nat (List.length page)) total offset limit page), rs')
  end.

(* ------------------------------------------------------------------------- *)
(** ** Statistics: [GET /scrape] (lines 751-801) *)

Fixpoint z_digits (fuel : nat) (n : Z) (acc : string) : string :=
  match fuel with
  | O => acc
  | S f =>
      let acc' := String (ascii_of_nat (48 + Z.to_nat (n mod 10))) acc in
      if n <? 10 then acc' else z_digits f (n / 10) acc'
  end.

(** [String(n)] for an integer. *)
Definition string_of_Z (n : Z) : string :=
  let s := z_digits (S (Z.to_nat (Z.log2 (Z.abs n)))) (Z.abs n) EmptyString in
  if n <? 0 then String "-" s else s.

(** [String(v)], the property key [obj[v]] uses. *)
Definition js_to_string (v : jsval) : string :=
  match v with
  | JUndef => "undefined" | JNull => "null"
  | JBool b => if b then "true" else "false"
  | JNum z => string_of_Z z
  | JStr s => s
  end.

(** [obj[key] = (obj[key] || 0) + 1]; entries kept in insertion order. *)
Definition bump (key : string) (m : list (string * Z)) : list (string * Z) :=
  map_set String.eqb key
    (match map_get String.eqb key m with Some n => n + 1 | None => 1 end) m.

Record stats : Type := mk_stats {
  st_total : Z; st_by_game_type : list (string * Z); st_by_status : list (string * Z)
}.

(** The statistics loop over [activeRooms]. *)
Definition compute_stats (l : list Room.t) : stats :=
  let '(g, s) :=
    fold_left (fun '(g, s) r =>
        (bump (js_to_string (js_or (Room.gameType r) (JStr "unknown"))) g,
         bump (js_to_string (js_or (Room.status r) (JStr "unknown"))) s))
      l ([], []) in
  mk_stats (Z.of_nat (List.length l)) g s.

(** [app.get('/scrape', ...)] after the rate limiter. *)
Definition scrape (cfg : config) (rs : rooms_t) (now : Z) : stats * rooms_t :=
  let rs' := sweep_expired cfg now rs in
  (compute_stats (map snd rs'), rs').

(* ------------------------------------------------------------------------- *)
(** ** IP blocks and the rate limiter (lines 120-246) *)

Record rl_entry : Type := mk_rl {
  count : Z; announceCount : Z; resetTime : Z; violations : Z
}.

Record block_info : Type := mk_block { blockedUntil : Z; reason : string }.

Record limiter : Type := mk_limiter {
  rateLimitMap : list (string * rl_entry);
  blockedIPs : list (string * block_info)
}.

Definition localhost_ips : list string := ["127.0.0.1"; "::1"; "::ffff:127.0.0.1"; "localhost"].

Definition is_localhost (ip : string) : bool := existsb (String.eqb ip) localhost_ips.

(** [isIPBlocked(ip)]: [Some reason] when blocked; an expired temporary
    block ([Date.now() < blockedUntil] false) is deleted on the way. *)
Definition isIPBlocked (ip : string) (now : Z) (bl : list (string * block_info))
  : option string * list (string * block_info) :=
  if existsb (String.eqb ip) BLOCKED_IPS then (Some "Permanently blocked", bl)
  else match map_get String.eqb ip bl with
       | Some b =>
           if now <? blockedUntil b then (Some (reason b), bl)
           else (None, map_delete String.eqb ip bl)
       | None => (None, bl)
       end.

(** [blockIP(ip, reason)] with the default [BLOCK_DURATION]; localhost is
    never blocked. *)
Definition blockIP (cfg : config) (ip : string) (why : string) (now : Z)
  (bl : list (string * block_info)) : list (string * block_info) :=
  if is_localhost ip then bl
  else map_set String.eqb ip (mk_block (now + BLOCK_DURATION cfg) why) bl.

(** What the middleware does with the request. *)
Inductive rl_outcome : Type :=
| RLNext                                   (* [next()] *)
| RLBlocked (why : string)                 (* 403, [Access denied: why] *)
| RLLimited (post : bool) (retry : Z).     (* 429, [Try again in retry seconds] *)

(** Lines 212-220: past [MAX_RATE_LIMIT_ENTRIES] entries, delete the
    [size - MAX] entries with the smallest [resetTime]. *)
Definition enforce_rl_limit (m : list (string * rl_entry)) : list (string * rl_entry) :=
  let size := Z.of_nat (List.length m) in
  if MAX_RATE_LIMIT_ENTRIES <? size then
    let sorted := stable_sort (fun a b => Some (resetTime (snd a) - resetTime (snd b))) m in
    fold_left (fun acc '(k, _) => map_delete String.eqb k acc)
      (firstn (Z.to_nat (size - MAX_RATE_LIMIT_ENTRIES)) sorted) m
  else m.

(** The counting part of [rateLimit] (lines 199-245) for a non-localhost
    [ip] that is not blocked.  [rateLimitData] is the object in the map; if
    the size limit evicted it, the increments go to the detached object and
    the map no longer sees them. *)
Definition count_request (cfg : config) (ip : string) (post : bool) (now : Z)
  (lim : limiter) : rl_outcome * limiter :=
  let m := rateLimitMap lim in
  let '(data, m1) :=
    match map_get String.eqb ip m with
    | Some e => if resetTime e <? now
                then let e' := mk_rl 0 0 (now + RATE_LIMIT_WINDOW) 0 in
                     (e', map_set String.eqb ip e' m)
                else (e, m)
    | None => let e' := mk_rl 0 0 (now + RATE_LIMIT_WINDOW) 0 in
              (e', map_set String.eqb ip e' m)
    end in
  let m2 := enforce_rl_limit m1 in
  let store (e : rl_entry) := if map_has String.eqb ip m2
                              then map_set String.eqb ip e m2 else m2 in
  let retry := ceil_div_1000 (resetTime data - now) in
  if post then
    let data1 := mk_rl (count data) (announceCount data + 1) (resetTime data) (violations data) in
    if RATE_LIMIT_MAX_ANNOUNCES cfg <? announceCount data1 then
      let data2 := mk_rl (count data1) (announceCount data1) (resetTime data1) (violations data1 + 1) in
      let bl := if MAX_VIOLATIONS cfg <=? violations data2
                then blockIP cfg ip "Excessive announce attempts" now (blockedIPs lim)
                else blockedIPs lim in
      (RLLimited true retry, mk_limiter (store data2) bl)
    else (RLNext, mk_limiter (store data1) (blockedIPs lim))
  else
    let data1 := mk_rl (count data + 1) (announceCount data) (resetTime data) (violations data) in
    if RATE_LIMIT_MAX_REQUESTS cfg <? count data1 then
      let data2 := mk_rl (count data1) (announceCount data1) (resetTime data1) (violations data1 + 1) in
      let bl := if MAX_VIOLATIONS cfg <=? violations data2
                then blockIP cfg ip "Excessive requests" now (blockedIPs lim)
                else blockedIPs lim in
      (RLLimited false retry, mk_limiter (store data2) bl)
    else (RLNext, mk_limiter (store data1) (blockedIPs lim)).

(** [rateLimit(req, res, next)]; [post] is [req.method === 'POST']. *)
Definition rateLimit (cfg : config) (ip : string) (post : bool) (now : Z) (lim : limiter)
  : rl_outcome * limiter :=
  if DISABLE_RATE_LIMIT cfg then (RLNext, lim) else
  let '(blk, bl) := isIPBlocked ip now (blockedIPs lim) in
  let lim1 := mk_limiter (rateLimitMap lim) bl in
  match blk with
  | Some why => (RLBlocked why, lim1)
  | None => if is_localhost ip then (RLNext, lim1) else count_request cfg ip post now lim1
  end.

(** The rate limit cleanup interval (lines 911-923). *)
Definition rate_limit_cleanup_tick (now : Z) (m : list (string * rl_entry))
  : list (string * rl_entry) :=
  fold_left (fun acc '(ip, e) =>
      if resetTime e <? now then
        if 0 <? violations e
        then map_set String.eqb ip
               (mk_rl (count e) (announceCount e) (resetTime e) (Z.max 0 (violations e - 1))) acc
        else map_delete String.eqb ip acc
      else acc) m m.

(** The IP block cleanup interval (lines 927-944). *)
Definition ip_block_cleanup_tick (now : Z) (bl : list (string * block_info))
  : list (string * block_info) :=
  let bl1 := filter (fun '(_, b) => negb (blockedUntil b <=? now)) bl in
  filter (fun '(ip, _) => negb (is_localhost ip)) bl1.

(** [clearLocalhostBlocks()] (lines 848-866), called once at start-up: for
    each localhost address, delete its block and its rate-limit entry.  The
    [cleared] counter only feeds the log line. *)
Definition clearLocalhostBlocks (lim : limiter) : limiter :=
  fold_left (fun l ip =>
      let bl := if map_has String.eqb ip (blockedIPs l)
                then map_delete String.eqb ip (blockedIPs l) else blockedIPs l in
      let m := if map_has String.eqb ip (rateLimitMap l)
               then map_delete String.eqb ip (rateLimitMap l) else rateLimitMap l in
      mk_limiter m bl)
    localhost_ips lim.

(* ------------------------------------------------------------------------- *)
(** ** The whole server *)

Record server : Type := mk_server {
  rooms : rooms_t;
  nonces : nonce_store;
  limits : limiter
}.

Inductive request : Type :=
| GetAnnounce (ip : string) (q : query_params)
| PostAnnounce (ip : string) (d : Data.t)
| GetScrape (ip : string).

Inductive response : Type :=
| Resp403 (why : string)
| Resp429 (post : bool) (retry : Z)
| RespList (r : get_result)
| RespPost (r : post_result)
| RespStats (s : stats).

Inductive event : Type :=
| Request (r : request)
| RoomCleanup          (* every minute *)
| RateLimitCleanup     (* every five minutes *)
| IPBlockCleanup       (* every minute *)
| NonceTimers.         (* the due [setTimeout] callbacks *)

Definition request_ip (r : request) : string :=
  match r with GetAnnounce ip _ | PostAnnounce ip _ | GetScrape ip => ip end.

Definition request_is_post (r : request) : bool :=
  match r with PostAnnounce _ _ => true | _ => false end.

(** The route handler behind [rateLimit]. *)
Definition handle (cfg : config) (st : server) (r : request) (now : Z) : response * server :=
  match r with
  | GetAnnounce _ q =>
      let '(res, rs') := get_announce cfg (rooms st) q now in
      (RespList res, mk_server rs' (nonces st) (limits st))
  | PostAnnounce _ d =>
      let '(res, rs', ns') := post_announce (rooms st) (nonces st) d now in
      (RespPost res, mk_server rs' ns' (limits st))
  | GetScrape _ =>
      let '(res, rs') := scrape cfg (rooms st) now in
      (RespStats res, mk_server rs' (nonces st) (limits st))
  end.

(** Fire the [setTimeout] callbacks due at [now], in order. *)
Definition fire_nonce_timers (now : Z) (ns : nonce_store) : nonce_store :=
  let due := filter (fun '(t, _) => t <=? now) (nonceTimers ns) in
  mk_nonce_store
    (fold_left (fun acc '(_, n) => set_delete n acc) due (usedNonces ns))
    (filter (fun '(t, _) => negb (t <=? now)) (nonceTimers ns)).

Definition step (cfg : config) (st : server) (ev : event) (now : Z)
  : option response * server :=
  match ev with
  | Request r =>
      let '(o, lim) := rateLimit cfg (request_ip r) (request_is_post r) now (limits st) in
      let st1 := mk_server (rooms st) (nonces st) lim in
      match o with
      | RLBlocked why => (Some (Resp403 why), st1)
      | RLLimited p s => (Some (Resp429 p s), st1)
      | RLNext => let '(res, st2) := handle cfg st1 r now in (Some res, st2)
      end
  | RoomCleanup =>
      (None, mk_server (room_cleanup_tick cfg now (rooms st)) (nonces st) (limits st))
  | RateLimitCleanup =>
      (None, mk_server (rooms st) (nonces st)
               (mk_limiter (rate_limit_cleanup_tick now (rateLimitMap (limits st)))
                           (blockedIPs (limits st))))
  | IPBlockCleanup =>
      (None, mk_server (rooms st) (nonces st)
               (mk_limiter (rateLimitMap (limits st))
                           (ip_block_cleanup_tick now (blockedIPs (limits st)))))
  | NonceTimers =>
      (None, mk_server (rooms st) (fire_nonce_timers now (nonces st)) (limits st))
  end.

Definition empty_server : server :=
  mk_server [] (mk_nonce_store [] []) (mk_limiter [] []).

(** Run a sequence of timed events. *)
Fixpoint run (cfg : config) (st : server) (evs : list (event * Z))
  : list (option response) * server :=
  match evs with
  | [] => ([], st)
  | (ev, t) :: r =>
      let '(o, st1) := step cfg st ev t in
      let '(os, st2) := run cfg st1 r in
      (o :: os, st2)
  end.

(* ------------------------------------------------------------------------- *)
(** ** Sample inputs *)

Fixpoint nat_digits (fuel n : nat) (acc : string) : string :=
  match fuel with
  | O => acc
  | S f =>
      let acc' := String (ascii_of_nat (48 + n mod 10)) acc in
      if (n <? 10)%nat then acc' else nat_digits f (n / 10) acc'
  end.

Definition string_of_nat (n : nat) : string := nat_digits (S n) n EmptyString.

(** A valid announcement for a new room [id]. *)
Definition sample_data (id : string) : Data.t :=
  {| Data.roomId := JStr id; Data.gameType := JStr "calpoker";
     Data.status := JStr "waiting"; Data.appBaseUrl := JStr "https://crate.ink";
     Data.public := JBool true; Data.player1Name := JStr "Alice";
     Data.player1WalletAddress := JStr "xch1alice"; Data.player1WalletPuzzleHash := JUndef;
     Data.player1PublicKey := JStr "pk1"; Data.player1IdentityPublicKey := JUndef;
     Data.player1IdentityAddress := JUndef; Data.player1PeerId := JStr "peer-a";
     Data.player2Name := JUndef; Data.player2WalletAddress := JUndef;
     Data.player2WalletPuzzleHash := JUndef; Data.player2PublicKey := JUndef;
     Data.player2IdentityPublicKey := JUndef; Data.player2IdentityAddress := JUndef;
     Data.player2PeerId := JUndef; Data.stateChannelCoinId := JUndef;
     Data.wagerAmount := JNum 1000000; Data.activeGameId := JUndef;
     Data.timestamp := JUndef; Data.nonce := JUndef; Data.createdAt := JUndef |}.

(** The stored record of [sample_data id] created at time [t]. *)
Definition sample_room (id : string) (t : Z) : Room.t := new_room (sample_data id) t.

(** [n] rooms "r0", "r1", ... created at times 1000, 1001, ... *)
Definition sample_rooms (n : nat) : rooms_t :=
  map (fun i => let id := "r" ++ string_of_nat i in
                (JStr id, sample_room id (1000 + Z.of_nat i)))%string
      (seq 0 n).

(** ** Descriptions used by the statements *)

(** Fields overwritten by [data.f !== undefined ? data.f : room.f] (or
    [if (data.f !== undefined)]). *)
Definition undef_guarded_fields : list ((Data.t -> jsval) * (Room.t -> jsval)) :=
  [(Data.gameType, Room.gameType); (Data.public, Room.public);
   (Data.player2Name, Room.player2Name);
   (Data.player2WalletAddress, Room.player2WalletAddress);
   (Data.player2WalletPuzzleHash, Room.player2WalletPuzzleHash);
   (Data.player2PublicKey, Room.player2PublicKey);
   (Data.player2IdentityPublicKey, Room.player2IdentityPublicKey);
   (Data.player2IdentityAddress, Room.player2IdentityAddress);
   (Data.player2PeerId, Room.player2PeerId);
   (Data.stateChannelCoinId, Room.stateChannelCoinId);
   (Data.wagerAmount, Room.wagerAmount); (Data.activeGameId, Room.activeGameId)].

(** Fields overwritten by [if (data.f) room.f = data.f] (or
    [data.status || room.status]). *)
Definition truthy_guarded_fields : list ((Data.t -> jsval) * (Room.t -> jsval)) :=
  [(Data.status, Room.status); (Data.appBaseUrl, Room.appBaseUrl);
   (Data.player1Name, Room.player1Name);
   (Data.player1WalletAddress, Room.player1WalletAddress);
   (Data.player1WalletPuzzleHash, Room.player1WalletPuzzleHash);
   (Data.player1PublicKey, Room.player1PublicKey);
   (Data.player1IdentityPublicKey, Room.player1IdentityPublicKey);
   (Data.player1IdentityAddress, Room.player1IdentityAddress);
   (Data.player1PeerId, Room.player1PeerId)].

Module Data_ext.
(** The body [{roomId: id, status: st}]. *)
Definition only_id_status (id st : jsval) : Data.t :=
  Data.mk id JUndef st JUndef JUndef JUndef JUndef JUndef JUndef JUndef
     JUndef JUndef JUndef JUndef JUndef JUndef JUndef JUndef JUndef JUndef
     JUndef JUndef JUndef JUndef JUndef.

(** [d] with another [nonce]. *)
Definition with_nonce (d : Data.t) (n : jsval) : Data.t :=
  Data.mk (Data.roomId d) (Data.gameType d) (Data.status d) (Data.appBaseUrl d)
    (Data.public d) (Data.player1Name d) (Data.player1WalletAddress d)
    (Data.player1WalletPuzzleHash d) (Data.player1PublicKey d)
    (Data.player1IdentityPublicKey d) (Data.player1IdentityAddress d)
    (Data.player1PeerId d) (Data.player2Name d) (Data.player2WalletAddress d)
    (Data.player2WalletPuzzleHash d) (Data.player2PublicKey d)
    (Data.player2IdentityPublicKey d) (Data.player2IdentityAddress d)
    (Data.player2PeerId d) (Data.stateChannelCoinId d) (Data.wagerAmount d)
    (Data.activeGameId d) (Data.timestamp d) n (Data.createdAt d).

End Data_ext.

(** The message of the replay guard. *)
Definition dup_msg : string := "Duplicate nonce (replay attack detected)".

(** Decidable side conditions on a registry, used to check concrete inputs. *)
Fixpoint nodup_keys (l : list jsval) : bool :=
  match l with
  | [] => true
  | x :: r => negb (existsb (jsval_eqb x) r) && nodup_keys r
  end.

Definition numeric_createdAt (rs : rooms_t) : bool :=
  forallb (fun p => match to_number (Room.createdAt (snd p)) with
                    | Some _ => true | None => false end) rs.

(** A sequence of requests [(ip, post, time)] through the rate limiter. *)
Fixpoint run_rl (cfg : config) (reqs : list (string * bool * Z)) (lim : limiter)
  : list rl_outcome * limiter :=
  match reqs with
  | [] => ([], lim)
  | (ip, post, t) :: r =>
      let '(o, lim1) := rateLimit cfg ip post t lim in
      let '(os, lim2) := run_rl cfg r lim1 in
      (o :: os, lim2)
  end.

(** The limit that applies to a request of the given kind. *)
Definition rl_threshold (cfg : config) (post : bool) : Z :=
  if post then RATE_LIMIT_MAX_ANNOUNCES cfg else RATE_LIMIT_MAX_REQUESTS cfg.

(** An entry that has counted [c] requests of one kind and none of the other. *)
Definition entry_of (post : bool) (c R : Z) : rl_entry :=
  if post then mk_rl 0 c R 0 else mk_rl c 0 R 0.

(** The outcomes a window resetting at [R] should give, [c] requests of the
    kind having been counted: allowed while fewer than the threshold were
    counted, then refused with the seconds left until [R]. *)
Fixpoint expected_from (thr : Z) (post : bool) (R c : Z) (ts : list Z) : list rl_outcome :=
  match ts with
  | [] => []
  | t :: r =>
      (if c <? thr then RLNext else RLLimited post (ceil_div_1000 (R - t)))
        :: expected_from thr post R (c + 1) r
  end.

(** The outcomes of requests of one kind at times [ts] in a window opened at [t0]. *)
Definition expected_rl (cfg : config) (post : bool) (t0 : Z) (ts : list Z) : list rl_outcome :=
  expected_from (rl_threshold cfg post) post (t0 + RATE_LIMIT_WINDOW) 0 ts.

(** Client addresses "ip0", "ip1", ... *)
Definition ip_of (i : nat) : string := "ip" ++ string_of_nat i.

(** The times [start], [start + 1], ..., [n] of them. *)
Definition times (start : Z) (n : nat) : list Z := map (fun i => start + Z.of_nat i) (seq 0 n).

Definition is_limited (o : rl_outcome) : bool :=
  match o with RLLimited _ _ => true | _ => false end.

(** The expiry predicate in the words of the specification: the last
    activity ([updatedAt]) lies more than [PEER_TIMEOUT] seconds before now. *)
Definition stale (cfg : config) (now : Z) (r : Room.t) : bool :=
  PEER_TIMEOUT cfg * 1000 <? now - Room.updatedAt r.

(** Distinct strings, as a test. *)
Fixpoint nodup_strs (l : list string) : bool :=
  match l with
  | [] => true
  | x :: r => negb (existsb (String.eqb x) r) && nodup_strs r
  end.

(** The rate-limit table has distinct keys and at most
    [MAX_RATE_LIMIT_ENTRIES] entries. *)
Definition rl_bounded (lim : limiter) : bool :=
  nodup_strs (map fst (rateLimitMap lim)) &&
  (Z.of_nat (length (rateLimitMap lim)) <=? MAX_RATE_LIMIT_ENTRIES).

(** No localhost address has a temporary block. *)
Definition no_localhost_blocks (lim : limiter) : bool :=
  forallb (fun p => negb (is_localhost (fst p))) (blockedIPs lim).

(** The shapes validation guarantees for some stored fields. *)
Definition room_id_ok (v : jsval) : bool :=
  match v with
  | JStr s => negb (String.eqb s "") && (slen s <=? MAX_ROOM_ID_LENGTH) &&
              all_chars is_room_id_char s
  | _ => false
  end.

Definition status_ok (v : jsval) : bool :=
  match v with JStr s => existsb (String.eqb s) validStatuses | _ => false end.

Definition public_ok (v : jsval) : bool :=
  match v with JBool _ => true | _ => false end.

Definition wallet_ok (v : jsval) : bool :=
  match v with JStr s => chia_address s && (slen s <=? 100) | _ => false end.

Definition name_ok (v : jsval) : bool :=
  match v with JStr s => negb (String.eqb s "") && (slen s <=? MAX_NAME_LENGTH) | _ => false end.

(** A stored room whose id, status, public flag, player-1 wallet address and
    player-1 name have the shapes validation asks for. *)
Definition room_valid (r : Room.t) : bool :=
  room_id_ok (Room.roomId r) && status_ok (Room.status r) && public_ok (Room.public r) &&
  wallet_ok (Room.player1WalletAddress r) && name_ok (Room.player1Name r).

(** [createdAt] as a number (0 for a value that is not one). *)
Definition created_num (r : Room.t) : Z :=
  match to_number (Room.createdAt r) with Some z => z | None => 0 end.

(** [q] with another [maxWager] parameter. *)
Definition with_maxWager (q : query_params) (o : option string) : query_params :=
  mk_query (q_gameType q) (q_status q) (q_search q) (q_minWager q) o (q_sort q)
    (q_offset q) (q_limit q) (q_includePrivate q).

(** The key a room is counted under in [_by_status] and [_by_game_type]:
    [room.status || 'unknown'] and [room.gameType || 'unknown'] as property
    names. *)
Definition status_key (r : Room.t) : string := js_to_string (js_or (Room.status r) (JStr "unknown")).
Definition game_key (r : Room.t) : string := js_to_string (js_or (Room.gameType r) (JStr "unknown")).

(** The number of rooms of [l] with key [k], as a tally entry: none for no
    room. *)
Definition tally (f : Room.t -> string) (k : string) (l : list Room.t) : option Z :=
  let n := length (filter (fun r => String.eqb (f r) k) l) in
  if (n =? 0)%nat then None else Some (Z.of_nat n).


(** A [createdAt] that [Number] converts. *)
Definition num_created (r : Room.t) : Prop := to_number (Room.createdAt r) <> None.

(** What a tally holds after [n] more rooms with the same key. *)
Definition tally_add (o : option Z) (n : nat) : option Z :=
  match o with
  | Some v => Some (v + Z.of_nat n)
  | None => if (n =? 0)%nat then None else Some (Z.of_nat n)
  end.

(** Every stored room passes the shape checks of [validateAnnouncement]. *)
Definition rooms_valid (rs : rooms_t) : Prop := Forall (fun p => room_valid (snd p) = true) rs.

(** No localhost address in a block table. *)
Definition nlb (bl : list (string * block_info)) : bool :=
  forallb (fun p => negb (is_localhost (fst p))) bl.

(** The rate-limit table has distinct keys and at most
    [MAX_RATE_LIMIT_ENTRIES] entries. *)
Definition rl_ok (m : list (string * rl_entry)) : Prop :=
  NoDup (map fst m) /\ (length m <= Z.to_nat MAX_RATE_LIMIT_ENTRIES)%nat.

(** What the rate limit cleanup does to one entry: [None] when deleted. *)
Definition rl_decay (now : Z) (e : rl_entry) : option rl_entry :=
  if resetTime e <? now then
    if 0 <? violations e
    then Some (mk_rl (count e) (announceCount e) (resetTime e) (Z.max 0 (violations e - 1)))
    else None
  else Some e.


(** Sample inputs for the remaining properties. *)
Definition paging_query : query_params :=
  mk_query None None None None None None (Some "10") (Some "5") None.

Definition zero_max_query : query_params :=
  mk_query None None None (Some "5") (Some "0") None None None None.

Definition sample_server : server :=
  mk_server (sample_rooms 3) (mk_nonce_store [] []) (mk_limiter [] []).

Definition sample_limiter : limiter :=
  mk_limiter [("1.2.3.4", mk_rl 3 1 60000 2); ("5.6.7.8", mk_rl 1 0 60000 0);
              ("9.9.9.9", mk_rl 1 0 500000 0)]
             [("1.2.3.4", mk_block 300000 "Excessive requests")].

(** ** One client among others

    The server takes every kind of event in any order: requests of other
    clients and the cleanup timers may come between two requests of one
    client.  The following single out the requests of one address in a run. *)

(** The event is a request from [ip]. *)
Definition req_from (ip : string) (ev : event) : bool :=
  match ev with Request r => String.eqb (request_ip r) ip | _ => false end.

(** What the rate limiter decided for a request, read off its response:
    403 and 429 come only from [rateLimit], the route handlers never send them. *)
Definition verdict (o : option response) : rl_outcome :=
  match o with
  | Some (Resp403 why) => RLBlocked why
  | Some (Resp429 p s) => RLLimited p s
  | _ => RLNext
  end.

(** The decisions for the requests from [ip] in a run, in order. *)
Fixpoint ip_verdicts (ip : string) (evs : list (event * Z)) (os : list (option response))
  : list rl_outcome :=
  match evs, os with
  | (ev, _) :: evs', o :: os' =>
      if req_from ip ev then verdict o :: ip_verdicts ip evs' os' else ip_verdicts ip evs' os'
  | _, _ => []
  end.

(** The times of the requests from [ip] in a run, in order. *)
Fixpoint ip_times (ip : string) (evs : list (event * Z)) : list Z :=
  match evs with
  | [] => []
  | (ev, t) :: evs' => if req_from ip ev then t :: ip_times ip evs' else ip_times ip evs'
  end.

(** What the identity's entry and block can be while the other events run. *)
Definition rl_inv (ip : string) (post : bool) (c R : Z) (lim : limiter) : Prop :=
  NoDup (map fst (rateLimitMap lim)) /\ map_get String.eqb ip (blockedIPs lim) = None /\
  (map_get String.eqb ip (rateLimitMap lim) = Some (entry_of post c R) \/
   map_get String.eqb ip (rateLimitMap lim) = None).

(** A configuration with a read limit of 2 per window. *)
Definition small_rl_config : config :=
  {| PEER_TIMEOUT := 600; RATE_LIMIT_MAX_REQUESTS := 2; RATE_LIMIT_MAX_ANNOUNCES := 20;
     DISABLE_RATE_LIMIT := false; MAX_VIOLATIONS := 10; BLOCK_DURATION := 300000 |}.

(** Requests of "1.2.3.4" among requests of other clients and timer ticks. *)
Definition interleaved_events : list (event * Z) :=
  [(Request (GetScrape "5.6.7.8"), 1); (RateLimitCleanup, 2); (Request (GetScrape "1.2.3.4"), 3);
   (IPBlockCleanup, 4); (RoomCleanup, 5); (Request (GetScrape "9.9.9.9"), 6);
   (NonceTimers, 7); (Request (GetScrape "1.2.3.4"), 8)].

(* ========================================================================= *)
(** * Proofs *)

(** ** Maps *)

Section MapLemmas.
Context {K V : Type} (keqb : K -> K -> bool).
Hypothesis keqb_spec : forall a b, keqb a b = true <-> a = b.

Lemma keqb_refl k : keqb k k = true.
Proof. apply keqb_spec; reflexivity. Qed.

Lemma keqb_false a b : a <> b -> keqb a b = false.
Proof. intro H. destruct (keqb a b) eqn:E; [apply keqb_spec in E; contradiction|reflexivity]. Qed.

Lemma map_has_In (k : K) (m : list (K * V)) :
  map_has keqb k m = true <-> In k (map fst m).
Proof.
  unfold map_has. induction m as [|[k' v] m IH]; simpl.
  - split; [discriminate|tauto].
  - destruct (keqb k' k) eqn:E.
    + apply keqb_spec in E. split; auto.
    + rewrite IH. split; [auto|]. intros [H|H]; auto.
      subst. rewrite keqb_refl in E. discriminate.
Qed.

Lemma map_get_In (k : K) (v : V) (m : list (K * V)) :
  map_get keqb k m = Some v -> In (k, v) m.
Proof.
  induction m as [|[k' v'] m IH]; simpl; [discriminate|].
  destruct (keqb k' k) eqn:E; intro H.
  - apply keqb_spec in E. inversion H. subst. auto.
  - auto.
Qed.

Lemma map_get_None (k : K) (m : list (K * V)) :
  map_get keqb k m = None <-> map_has keqb k m = false.
Proof. unfold map_has. destruct (map_get keqb k m); split; congruence. Qed.

Lemma map_get_set_same (k : K) (v : V) (m : list (K * V)) :
  map_get keqb k (map_set keqb k v m) = Some v.
Proof.
  unfold map_set. destruct (map_has keqb k m) eqn:H.
  - induction m as [|[k' v'] m IH]; [discriminate|].
    unfold map_has in H, IH. simpl in H |- *.
    destruct (keqb k' k) eqn:E; simpl; rewrite E; auto.
  - induction m as [|[k' v'] m IH]; simpl.
    + rewrite keqb_refl; reflexivity.
    + unfold map_has in H. simpl in H. destruct (keqb k' k); [discriminate|auto].
Qed.

Lemma map_get_set_other (k k' : K) (v : V) (m : list (K * V)) :
  k' <> k -> map_get keqb k' (map_set keqb k v m) = map_get keqb k' m.
Proof.
  intro Hne. unfold map_set. destruct (map_has keqb k m).
  - induction m as [|[a b] m IH]; simpl; [reflexivity|].
    destruct (keqb a k) eqn:E; simpl.
    + apply keqb_spec in E. subst. rewrite (keqb_false k k'); auto.
    + destruct (keqb a k'); auto.
  - induction m as [|[a b] m IH]; simpl.
    + rewrite (keqb_false k k'); auto.
    + destruct (keqb a k'); auto.
Qed.

Lemma map_set_length_present (k : K) (v : V) (m : list (K * V)) :
  map_has keqb k m = true -> length (map_set keqb k v m) = length m.
Proof. unfold map_set. intros ->. apply length_map. Qed.

Lemma map_set_length_absent (k : K) (v : V) (m : list (K * V)) :
  map_has keqb k m = false -> length (map_set keqb k v m) = S (length m).
Proof. unfold map_set. intros ->. rewrite length_app. simpl. lia. Qed.

Lemma map_set_length_le (k : K) (v : V) (m : list (K * V)) :
  (length (map_set keqb k v m) <= S (length m))%nat.
Proof.
  destruct (map_has keqb k m) eqn:H.
  - rewrite map_set_length_present; auto.
  - rewrite map_set_length_absent; auto.
Qed.

Lemma map_delete_length_le (k : K) (m : list (K * V)) :
  (length (map_delete keqb k m) <= length m)%nat.
Proof. unfold map_delete. induction m as [|[a b] m IH]; simpl; [lia|]. destruct (negb _); simpl; lia. Qed.

Lemma map_delete_length_lt (k : K) (m : list (K * V)) :
  In k (map fst m) -> (length (map_delete keqb k m) < length m)%nat.
Proof.
  unfold map_delete. induction m as [|[a b] m IH]; simpl; [tauto|].
  intros [H|H].
  - subst a. rewrite keqb_refl. simpl.
    pose proof (map_delete_length_le k m) as L. unfold map_delete in L. lia.
  - destruct (negb (keqb a k)); simpl; specialize (IH H); lia.
Qed.

Lemma map_delete_has_not (k : K) (m : list (K * V)) : map_has keqb k (map_delete keqb k m) = false.
Proof.
  apply Bool.not_true_iff_false. rewrite map_has_In. unfold map_delete.
  intro H. apply in_map_iff in H as [[a b] [Ha Hin]]. simpl in Ha. subst.
  apply filter_In in Hin as [_ Hf]. rewrite keqb_refl in Hf. discriminate.
Qed.

Lemma map_delete_not_in (k : K) (m : list (K * V)) : ~ In k (map fst m) -> map_delete keqb k m = m.
Proof.
  unfold map_delete. induction m as [|[a b] m IH]; simpl; [reflexivity|].
  intro H. rewrite keqb_false by (intro E; apply H; auto). simpl. f_equal. auto.
Qed.
End MapLemmas.

Lemma rooms_size_nonneg rs : 0 <= rooms_size rs.
Proof. unfold rooms_size. lia. Qed.

(** ** The stable sort *)

Section SortLemmas.
Context {A : Type}.

Lemma insert_sorted_In (cmp' : A -> A -> option Z) x l y :
  In y (insert_sorted cmp' x l) <-> x = y \/ In y l.
Proof.
  induction l as [|z l IH]; simpl; [tauto|].
  destruct (before cmp' z x); simpl; [rewrite IH|]; tauto.
Qed.

Lemma stable_sort_In (cmp' : A -> A -> option Z) l y :
  In y (stable_sort cmp' l) <-> In y l.
Proof.
  induction l as [|x l IH]; simpl; [tauto|].
  rewrite insert_sorted_In, IH. tauto.
Qed.

Lemma insert_sorted_length (cmp' : A -> A -> option Z) x l :
  length (insert_sorted cmp' x l) = S (length l).
Proof. induction l as [|z l IH]; simpl; [reflexivity|]. destruct (before cmp' z x); simpl; auto. Qed.

Lemma stable_sort_length (cmp' : A -> A -> option Z) l :
  length (stable_sort cmp' l) = length l.
Proof. induction l; simpl; [reflexivity|]. rewrite insert_sorted_length; auto. Qed.

Variable key : A -> option Z.
Let cmp (a b : A) : option Z :=
  match key a, key b with Some x, Some y => Some (x - y) | _, _ => None end.

(** With numeric keys, the head of the sorted list has the least key. *)
Lemma stable_sort_head_min l h t :
  Forall (fun a => key a <> None) l ->
  stable_sort cmp l = h :: t ->
  In h l /\ forall y, In y l -> exists x z, key h = Some x /\ key y = Some z /\ x <= z.
Proof.
  revert h t. induction l as [|a l IH]; intros h t Hnum Hs; simpl in Hs; [discriminate|].
  inversion Hnum as [|? ? Ha Hl]; subst.
  destruct (key a) as [xa|] eqn:Ka; [|contradiction].
  destruct (stable_sort cmp l) as [|h' t'] eqn:Hsl.
  - simpl in Hs. inversion Hs; subst.
    assert (l = []) as ->.
    { destruct l as [|b l]; [reflexivity|].
      pose proof (stable_sort_length cmp (b :: l)) as L.
      rewrite Hsl in L. discriminate. }
    split; [left; reflexivity|]. intros y [<-|[]]. exists xa, xa. auto with zarith.
  - destruct (IH h' t' Hl eq_refl) as [Hin Hmin].
    simpl in Hs. unfold before in Hs. unfold cmp in Hs.
    destruct (Hmin h' Hin) as [xh [_ [Kh [_ _]]]].
    rewrite Kh, Ka in Hs.
    destruct (xh - xa <? 0) eqn:Lt.
    + inversion Hs; subst. split; [right; assumption|].
      intros y [<-|Hy].
      * exists xh, xa. apply Z.ltb_lt in Lt. repeat split; auto; lia.
      * apply Hmin; assumption.
    + inversion Hs; subst. split; [left; reflexivity|].
      apply Z.ltb_ge in Lt.
      intros y [<-|Hy].
      * exists xa, xa. auto with zarith.
      * destruct (Hmin y Hy) as [x1 [z1 [K1 [K2 L]]]].
        rewrite Kh in K1. inversion K1; subst.
        exists xa, z1. repeat split; auto; lia.
Qed.
End SortLemmas.

(** ** Merge semantics of an update *)

Lemma unless_undef_spec x old :
  (x = JUndef -> unless_undef x old = old) /\ (x <> JUndef -> unless_undef x old = x).
Proof. unfold unless_undef. destruct x; simpl; split; intros; congruence. Qed.

Lemma if_truthy_spec x old :
  (truthy x = false -> if_truthy x old = old) /\ (truthy x = true -> if_truthy x old = x).
Proof. unfold if_truthy. split; intros ->; reflexivity. Qed.

Lemma js_or_spec x old :
  (truthy x = false -> js_or x old = old) /\ (truthy x = true -> js_or x old = x).
Proof. unfold js_or. split; intros ->; reflexivity. Qed.

Lemma upsert_below_limit (rs : rooms_t) :
  rooms_size rs < MAX_ROOMS -> enforce_room_limit rs = rs.
Proof.
  intro H. unfold enforce_room_limit.
  destruct (MAX_ROOMS <=? rooms_size rs) eqn:E; [apply Z.leb_le in E; lia|reflexivity].
Qed.

(** C1, as the code has it: a status-only update is refused by validation,
    which asks for every mandatory field on every announce, and the stored
    record keeps its old status. *)
Lemma C1_status_only_update_rejected :
  let '(res, rs', _) :=
    post_announce (sample_rooms 1) (mk_nonce_store [] [])
      (Data_ext.only_id_status (JStr "r0") (JStr "active")) 2000 in
  res = PostRejected ["Missing or invalid player1Name";
                      "Missing or invalid player1WalletAddress";
                      "Missing or invalid player1PeerId"; "Missing or invalid appBaseUrl"]
  /\ rs' = sample_rooms 1
  /\ option_map Room.status (rooms_get (JStr "r0") rs') = Some (JStr "waiting").
Proof. vm_compute. repeat split. Qed.

(** C1 (amended): below [MAX_ROOMS], an announce for a stored [roomId] that
    passes validation updates that record in place: [createdAt] is kept,
    [updatedAt] becomes now; a field guarded by [!== undefined] keeps its
    value when omitted and otherwise takes the supplied value, an explicit
    [null] included; a field guarded by truthiness ([status], [appBaseUrl],
    the player-1 fields) keeps its value when the supplied one is falsy
    (omitted, [null], [""]) and otherwise takes it; every other record and the
    registry size are unchanged. *)
Theorem C1_update_merges (rs : rooms_t) (ns : nonce_store) (d : Data.t) (now : Z) (r : Room.t) :
  rooms_size rs < MAX_ROOMS ->
  rooms_get (Data.roomId d) rs = Some r ->
  fst (validateAnnouncement d now ns) = [] ->
  let '(res, rs', _) := post_announce rs ns d now in
  exists r',
    res = PostOk r' /\ rooms_get (Data.roomId d) rs' = Some r' /\
    Room.roomId r' = Room.roomId r /\
    Room.createdAt r' = Room.createdAt r /\ Room.updatedAt r' = now /\
    Forall (fun '(fd, fr) => (fd d = JUndef -> fr r' = fr r) /\
                             (fd d <> JUndef -> fr r' = fd d)) undef_guarded_fields /\
    Forall (fun '(fd, fr) => (truthy (fd d) = false -> fr r' = fr r) /\
                             (truthy (fd d) = true -> fr r' = fd d)) truthy_guarded_fields /\
    (forall k, k <> Data.roomId d -> rooms_get k rs' = rooms_get k rs) /\
    length rs' = length rs.
Proof.
  intros Hsize Hget Hval.
  unfold post_announce.
  destruct (validateAnnouncement d now ns) as [errs ns'] eqn:V.
  simpl in Hval. subst errs.
  unfold upsert_room. rewrite (upsert_below_limit rs Hsize), Hget.
  exists (update_room r d now).
  split; [reflexivity|]. split; [apply (map_get_set_same jsval_eqb jsval_eqb_eq)|].
  split; [reflexivity|]. split; [reflexivity|]. split; [reflexivity|].
  split.
  { repeat constructor; cbn -[unless_undef]; apply unless_undef_spec. }
  split.
  { repeat constructor; cbn -[if_truthy js_or];
      first [apply if_truthy_spec | apply js_or_spec]. }
  split.
  - intros k Hk. unfold rooms_get, rooms_set.
    apply (map_get_set_other jsval_eqb jsval_eqb_eq). exact Hk.
  - unfold rooms_set. apply (map_set_length_present jsval_eqb).
    unfold map_has. unfold rooms_get in Hget. rewrite Hget. reflexivity.
Qed.

(** ** Room capacity *)

Section MapLemmas2.
Context {K V : Type} (keqb : K -> K -> bool).
Hypothesis keqb_spec : forall a b, keqb a b = true <-> a = b.

Lemma map_delete_In k (m : list (K * V)) p :
  In p (map_delete keqb k m) <-> In p m /\ fst p <> k.
Proof.
  unfold map_delete. rewrite filter_In. destruct p as [a b]. simpl.
  destruct (keqb a k) eqn:E; simpl.
  - apply keqb_spec in E. split; [intros [_ H]; discriminate H|intros [_ H]; contradiction].
  - split.
    + intros [H _]. split; [exact H|]. intro Ha. subst.
      rewrite (keqb_refl keqb keqb_spec) in E. discriminate.
    + intros [H _]. split; [exact H|reflexivity].
Qed.

Lemma map_has_delete k k' (m : list (K * V)) :
  map_has keqb k' (map_delete keqb k m) = true -> map_has keqb k' m = true.
Proof.
  rewrite !(map_has_In keqb keqb_spec). intros H.
  apply in_map_iff in H as [p [Hp Hin]]. apply map_delete_In in Hin as [Hin _].
  apply in_map_iff. eauto.
Qed.

Lemma map_set_absent k v (m : list (K * V)) :
  map_has keqb k m = false -> map_set keqb k v m = m ++ [(k, v)].
Proof. unfold map_set. intros ->. reflexivity. Qed.

Lemma map_delete_length_nodup k (m : list (K * V)) :
  NoDup (map fst m) -> In k (map fst m) ->
  length (map_delete keqb k m) = (length m - 1)%nat.
Proof.
  induction m as [|[a b] m IH]; [simpl; tauto|].
  intros Hnd Hin. simpl in Hnd, Hin. change (length ((a, b) :: m)) with (S (length m)).
  inversion Hnd as [|? ? Hna Hnd']; subst.
  assert (C : map_delete keqb k ((a, b) :: m) =
              if keqb a k then map_delete keqb k m else (a, b) :: map_delete keqb k m).
  { unfold map_delete. simpl. destruct (keqb a k); reflexivity. }
  rewrite C. destruct (keqb a k) eqn:E; simpl.
  - apply keqb_spec in E. subst a.
    rewrite (map_delete_not_in keqb keqb_spec k m Hna). lia.
  - destruct Hin as [Hin|Hin].
    + subst. rewrite (keqb_refl keqb keqb_spec) in E. discriminate.
    + rewrite IH; auto. destruct m; simpl in *; [tauto|lia].
Qed.
End MapLemmas2.

Lemma length_fold_delete (l rs : rooms_t) :
  (length (fold_left (fun acc '(k, _) => rooms_delete k acc) l rs) <= length rs)%nat.
Proof.
  revert rs. induction l as [|[k v] l IH]; intros rs; simpl; [lia|].
  etransitivity; [apply IH|]. apply map_delete_length_le.
Qed.

Lemma sweep_length cfg now rs : (length (sweep_expired cfg now rs) <= length rs)%nat.
Proof.
  unfold sweep_expired. induction rs as [|[k r] rs IH]; simpl; [lia|].
  destruct (negb _); simpl; lia.
Qed.

Lemma enforce_room_limit_at_cap rs :
  MAX_ROOMS <= rooms_size rs -> (length (enforce_room_limit rs) < length rs)%nat.
Proof.
  intro H. unfold enforce_room_limit.
  destruct (MAX_ROOMS <=? rooms_size rs) eqn:E; [|apply Z.leb_gt in E; lia].
  destruct (stable_sort by_createdAt rs) as [|[k r] t] eqn:S.
  - pose proof (stable_sort_length by_createdAt rs) as L. rewrite S in L.
    unfold rooms_size, MAX_ROOMS in *. simpl in L. lia.
  - apply (map_delete_length_lt jsval_eqb jsval_eqb_eq).
    assert (In (k, r) rs) as Hin.
    { apply (stable_sort_In by_createdAt). rewrite S. left. reflexivity. }
    apply in_map_iff. exists (k, r). auto.
Qed.

Lemma upsert_size rs d now :
  rooms_size rs <= MAX_ROOMS -> rooms_size (fst (upsert_room rs d now)) <= MAX_ROOMS.
Proof.
  intro H. unfold upsert_room.
  assert (L : rooms_size (enforce_room_limit rs) < MAX_ROOMS).
  { destruct (Z.eq_dec (rooms_size rs) MAX_ROOMS) as [E|E].
    - pose proof (enforce_room_limit_at_cap rs) as C. unfold rooms_size in *. lia.
    - rewrite upsert_below_limit by lia. lia. }
  destruct (rooms_get (Data.roomId d) (enforce_room_limit rs)); simpl;
    unfold rooms_size, rooms_set in *;
    match goal with |- context [map_set _ ?k ?v ?m] =>
      pose proof (map_set_length_le jsval_eqb k v m) end;
    lia.
Qed.

Lemma post_size rs ns d now :
  rooms_size rs <= MAX_ROOMS ->
  rooms_size (snd (fst (post_announce rs ns d now))) <= MAX_ROOMS.
Proof.
  intro H. unfold post_announce.
  destruct (validateAnnouncement d now ns) as [[|e es] ns'].
  - destruct (upsert_room rs d now) as [rs' r] eqn:U. simpl.
    pose proof (upsert_size rs d now H) as P. rewrite U in P. exact P.
  - exact H.
Qed.

Lemma step_rooms_size cfg st ev now :
  rooms_size (rooms st) <= MAX_ROOMS ->
  rooms_size (rooms (snd (step cfg st ev now))) <= MAX_ROOMS.
Proof.
  intro H.
  assert (Sw : forall rs, rooms_size rs <= MAX_ROOMS ->
                          rooms_size (sweep_expired cfg now rs) <= MAX_ROOMS).
  { intros rs Hr. pose proof (sweep_length cfg now rs). unfold rooms_size in *. lia. }
  destruct ev as [r| | | |]; simpl; try exact H.
  - destruct (rateLimit cfg (request_ip r) (request_is_post r) now (limits st)) as [o lim].
    destruct o; simpl; try exact H.
    destruct r as [ip q|ip d|ip]; simpl.
    + unfold get_announce. destruct (validateQueryParams q); simpl; auto.
    + destruct (post_announce (rooms st) (nonces st) d now) as [[res rs'] ns'] eqn:P. simpl.
      pose proof (post_size (rooms st) (nonces st) d now H) as Q. rewrite P in Q. exact Q.
    + apply Sw, H.
  - unfold room_cleanup_tick.
    destruct (MAX_ROOMS <? rooms_size (sweep_expired cfg now (rooms st))) eqn:E.
    + apply Z.ltb_lt in E. pose proof (sweep_length cfg now (rooms st)).
      unfold rooms_size in *. lia.
    + apply Sw, H.
Qed.

Lemma nodup_keys_NoDup l : nodup_keys l = true -> NoDup l.
Proof.
  induction l as [|x l IH]; simpl; intro H; [constructor|].
  apply andb_true_iff in H as [H1 H2]. constructor; [|auto].
  intro Hin. apply negb_true_iff in H1.
  assert (existsb (jsval_eqb x) l = true) as E.
  { apply existsb_exists. exists x. split; [exact Hin|apply jsval_eqb_refl]. }
  congruence.
Qed.

Lemma numeric_createdAt_Forall rs :
  numeric_createdAt rs = true ->
  Forall (fun p => to_number (Room.createdAt (snd p)) <> None) rs.
Proof.
  intro H. apply Forall_forall. intros p Hp.
  unfold numeric_createdAt in H. rewrite forallb_forall in H.
  specialize (H p Hp). destruct (to_number _); [discriminate|discriminate H].
Qed.

(** C2: at [MAX_ROOMS] rooms with distinct keys and numeric [createdAt], a
    valid announce for a new [roomId] deletes one room whose [createdAt] is
    the least of the registry, appends the new record, and leaves the size at
    [MAX_ROOMS]; and no event (announce, listing, stats, timer) takes a
    registry of at most [MAX_ROOMS] rooms above [MAX_ROOMS]. *)
Theorem C2_evict_oldest_and_bound (rs : rooms_t) (ns : nonce_store) (d : Data.t) (now : Z) :
  NoDup (map fst rs) ->
  rooms_size rs = MAX_ROOMS ->
  Forall (fun p => to_number (Room.createdAt (snd p)) <> None) rs ->
  rooms_get (Data.roomId d) rs = None ->
  fst (validateAnnouncement d now ns) = [] ->
  (let '(res, rs', _) := post_announce rs ns d now in
   exists k r,
     In (k, r) rs /\
     (forall k2 r2, In (k2, r2) rs -> exists x z,
        to_number (Room.createdAt r) = Some x /\
        to_number (Room.createdAt r2) = Some z /\ x <= z) /\
     rs' = rooms_delete k rs ++ [(Data.roomId d, new_room d now)] /\
     res = PostOk (new_room d now) /\
     rooms_get (Data.roomId d) rs' = Some (new_room d now) /\
     rooms_size rs' = MAX_ROOMS) /\
  (forall cfg st ev t,
     rooms_size (rooms st) <= MAX_ROOMS ->
     rooms_size (rooms (snd (step cfg st ev t))) <= MAX_ROOMS).
Proof.
  intros Hnd Hsize Hnum Hnew Hval. split; [|intros; apply step_rooms_size; assumption].
  unfold post_announce.
  destruct (validateAnnouncement d now ns) as [errs ns'] eqn:V.
  simpl in Hval. subst errs.
  unfold upsert_room, enforce_room_limit. rewrite Hsize, Z.leb_refl.
  destruct (stable_sort by_createdAt rs) as [|[k r] t] eqn:S.
  - pose proof (stable_sort_length by_createdAt rs) as L. rewrite S in L.
    unfold rooms_size, MAX_ROOMS in Hsize. simpl in L. lia.
  - destruct (stable_sort_head_min (fun p => to_number (Room.createdAt (snd p)))
                rs (k, r) t Hnum S) as [Hin Hmin].
    assert (Habs : rooms_get (Data.roomId d) (rooms_delete k rs) = None).
    { unfold rooms_get, rooms_delete. apply (map_get_None jsval_eqb).
      apply Bool.not_true_iff_false. intro H.
      apply (map_has_delete jsval_eqb jsval_eqb_eq) in H.
      apply (map_get_None jsval_eqb) in Hnew. congruence. }
    rewrite Habs. exists k, r.
    split; [exact Hin|].
    split; [intros k2 r2 H2; exact (Hmin (k2, r2) H2)|].
    assert (Hset : rooms_set (Data.roomId d) (new_room d now) (rooms_delete k rs) =
                   rooms_delete k rs ++ [(Data.roomId d, new_room d now)]).
    { unfold rooms_set. apply (map_set_absent jsval_eqb).
      apply (map_get_None jsval_eqb). exact Habs. }
    split; [exact Hset|]. split; [reflexivity|].
    split; [apply (map_get_set_same jsval_eqb jsval_eqb_eq)|].
    rewrite Hset. unfold rooms_size, rooms_delete in *. rewrite length_app.
    rewrite (map_delete_length_nodup jsval_eqb jsval_eqb_eq k rs Hnd).
    + unfold MAX_ROOMS in *. simpl length. lia.
    + apply in_map_iff. exists (k, r). auto.
Qed.

Lemma C2_evict_oldest_and_bound_witness :
  NoDup (map fst (sample_rooms 100)) /\
  rooms_size (sample_rooms 100) = MAX_ROOMS /\
  (let '(res, rs', _) :=
     post_announce (sample_rooms 100) (mk_nonce_store [] []) (sample_data "new") 5000 in
   exists k r,
     In (k, r) (sample_rooms 100) /\
     (forall k2 r2, In (k2, r2) (sample_rooms 100) -> exists x z,
        to_number (Room.createdAt r) = Some x /\
        to_number (Room.createdAt r2) = Some z /\ x <= z) /\
     rs' = rooms_delete k (sample_rooms 100) ++
             [(Data.roomId (sample_data "new"), new_room (sample_data "new") 5000)] /\
     res = PostOk (new_room (sample_data "new") 5000) /\
     rooms_get (Data.roomId (sample_data "new")) rs' =
       Some (new_room (sample_data "new") 5000) /\
     rooms_size rs' = MAX_ROOMS).
Proof.
  assert (Hnd : NoDup (map fst (sample_rooms 100)))
    by (apply nodup_keys_NoDup; vm_compute; reflexivity).
  assert (Hs : rooms_size (sample_rooms 100) = MAX_ROOMS) by (vm_compute; reflexivity).
  split; [exact Hnd|]. split; [exact Hs|].
  apply (C2_evict_oldest_and_bound (sample_rooms 100) (mk_nonce_store [] [])
           (sample_data "new") 5000 Hnd Hs).
  - apply numeric_createdAt_Forall. vm_compute. reflexivity.
  - vm_compute. reflexivity.
  - vm_compute. reflexivity.
Defined.

Lemma C1_update_merges_witness :
  rooms_size (sample_rooms 1) < MAX_ROOMS /\
  rooms_get (Data.roomId (sample_data "r0")) (sample_rooms 1) = Some (sample_room "r0" 1000) /\
  fst (validateAnnouncement (sample_data "r0") 2000 (mk_nonce_store [] [])) = [] /\
  (let '(res, rs', _) :=
     post_announce (sample_rooms 1) (mk_nonce_store [] []) (sample_data "r0") 2000 in
   exists r',
     res = PostOk r' /\ rooms_get (Data.roomId (sample_data "r0")) rs' = Some r' /\
     Room.roomId r' = Room.roomId (sample_room "r0" 1000) /\
     Room.createdAt r' = Room.createdAt (sample_room "r0" 1000) /\ Room.updatedAt r' = 2000 /\
     Forall (fun '(fd, fr) =>
               (fd (sample_data "r0") = JUndef -> fr r' = fr (sample_room "r0" 1000)) /\
               (fd (sample_data "r0") <> JUndef -> fr r' = fd (sample_data "r0")))
            undef_guarded_fields /\
     Forall (fun '(fd, fr) =>
               (truthy (fd (sample_data "r0")) = false -> fr r' = fr (sample_room "r0" 1000)) /\
               (truthy (fd (sample_data "r0")) = true -> fr r' = fd (sample_data "r0")))
            truthy_guarded_fields /\
     (forall k, k <> Data.roomId (sample_data "r0") ->
                rooms_get k rs' = rooms_get k (sample_rooms 1)) /\
     length rs' = length (sample_rooms 1)).
Proof.
  assert (H1 : rooms_size (sample_rooms 1) < MAX_ROOMS) by (vm_compute; reflexivity).
  assert (H2 : rooms_get (Data.roomId (sample_data "r0")) (sample_rooms 1) =
               Some (sample_room "r0" 1000)) by (vm_compute; reflexivity).
  assert (H3 : fst (validateAnnouncement (sample_data "r0") 2000 (mk_nonce_store [] [])) = [])
    by (vm_compute; reflexivity).
  split; [exact H1|]. split; [exact H2|]. split; [exact H3|].
  exact (C1_update_merges (sample_rooms 1) (mk_nonce_store [] []) (sample_data "r0") 2000
           (sample_room "r0" 1000) H1 H2 H3).
Defined.

(** ** The rate limiter *)

Lemma enforce_rl_limit_small m :
  Z.of_nat (length m) <= MAX_RATE_LIMIT_ENTRIES -> enforce_rl_limit m = m.
Proof.
  intro H. unfold enforce_rl_limit.
  destruct (MAX_RATE_LIMIT_ENTRIES <? Z.of_nat (length m)) eqn:E; [apply Z.ltb_lt in E; lia|reflexivity].
Qed.

Lemma isIPBlocked_free ip now bl :
  map_get String.eqb ip bl = None -> isIPBlocked ip now bl = (None, bl).
Proof. intro H. unfold isIPBlocked, BLOCKED_IPS. simpl. rewrite H. reflexivity. Qed.

Lemma isIPBlocked_lapsed ip now bl :
  (forall b, map_get String.eqb ip bl = Some b -> blockedUntil b <= now) ->
  fst (isIPBlocked ip now bl) = None /\ map_get String.eqb ip (snd (isIPBlocked ip now bl)) = None.
Proof.
  intro H. unfold isIPBlocked, BLOCKED_IPS. simpl.
  destruct (map_get String.eqb ip bl) as [b|] eqn:G.
  - specialize (H b eq_refl). destruct (now <? blockedUntil b) eqn:L; [apply Z.ltb_lt in L; lia|].
    split; [reflexivity|]. simpl. apply (map_get_None String.eqb).
    apply (map_delete_has_not String.eqb String.eqb_eq).
  - split; [reflexivity|exact G].
Qed.

(** A request when the identity has no live entry: a fresh window opens at
    [t0] and the request is the first one counted in it. *)
Lemma rl_step_first cfg ip post t0 lim :
  DISABLE_RATE_LIMIT cfg = false -> is_localhost ip = false ->
  (forall b, map_get String.eqb ip (blockedIPs lim) = Some b -> blockedUntil b <= t0) ->
  (forall e, map_get String.eqb ip (rateLimitMap lim) = Some e -> resetTime e < t0) ->
  Z.of_nat (length (map_set String.eqb ip (mk_rl 0 0 (t0 + RATE_LIMIT_WINDOW) 0)
                      (rateLimitMap lim))) <= MAX_RATE_LIMIT_ENTRIES ->
  (0 < rl_threshold cfg post ->
   exists lim', rateLimit cfg ip post t0 lim = (RLNext, lim') /\
     map_get String.eqb ip (blockedIPs lim') = None /\
     map_get String.eqb ip (rateLimitMap lim') =
       Some (entry_of post 1 (t0 + RATE_LIMIT_WINDOW)) /\
     Z.of_nat (length (rateLimitMap lim')) <= MAX_RATE_LIMIT_ENTRIES) /\
  (rl_threshold cfg post <= 0 ->
   fst (rateLimit cfg ip post t0 lim) =
     RLLimited post (ceil_div_1000 (t0 + RATE_LIMIT_WINDOW - t0))).
Proof.
  intros Hd Hl Hb He Hn. destruct lim as [m bl0]; simpl in Hb, He, Hn.
  destruct (isIPBlocked_lapsed ip t0 bl0 Hb) as [B1 B2].
  unfold rateLimit. rewrite Hd. cbn [blockedIPs rateLimitMap].
  destruct (isIPBlocked ip t0 bl0) as [blk bl] eqn:B. simpl in B1, B2. subst blk. rewrite Hl.
  unfold count_request. cbn [blockedIPs rateLimitMap].
  assert (M : (match map_get String.eqb ip m with
                | Some e => if resetTime e <? t0
                            then (mk_rl 0 0 (t0 + RATE_LIMIT_WINDOW) 0,
                                  map_set String.eqb ip (mk_rl 0 0 (t0 + RATE_LIMIT_WINDOW) 0) m)
                            else (e, m)
                | None => (mk_rl 0 0 (t0 + RATE_LIMIT_WINDOW) 0,
                           map_set String.eqb ip (mk_rl 0 0 (t0 + RATE_LIMIT_WINDOW) 0) m)
                end) =
             (mk_rl 0 0 (t0 + RATE_LIMIT_WINDOW) 0,
              map_set String.eqb ip (mk_rl 0 0 (t0 + RATE_LIMIT_WINDOW) 0) m)).
  { destruct (map_get String.eqb ip m) as [e|] eqn:G; [|reflexivity].
    rewrite (proj2 (Z.ltb_lt _ _) (He e eq_refl)). reflexivity. }
  rewrite M. clear M. cbv zeta.
  set (m1 := map_set String.eqb ip (mk_rl 0 0 (t0 + RATE_LIMIT_WINDOW) 0) m) in *.
  rewrite (enforce_rl_limit_small m1 Hn).
  assert (Hh : map_has String.eqb ip m1 = true).
  { unfold map_has, m1. rewrite (map_get_set_same String.eqb String.eqb_eq). reflexivity. }
  rewrite Hh. unfold rl_threshold. destruct post; simpl.
  - split.
    + intro Hc. destruct (RATE_LIMIT_MAX_ANNOUNCES cfg <? 1) eqn:L; [apply Z.ltb_lt in L; lia|].
      eexists; split; [reflexivity|]. simpl. split; [exact B2|]. split.
      * apply (map_get_set_same String.eqb String.eqb_eq).
      * rewrite (map_set_length_present String.eqb); auto.
    + intro Hc. destruct (RATE_LIMIT_MAX_ANNOUNCES cfg <? 1) eqn:L;
        [reflexivity|apply Z.ltb_ge in L; lia].
  - split.
    + intro Hc. destruct (RATE_LIMIT_MAX_REQUESTS cfg <? 1) eqn:L; [apply Z.ltb_lt in L; lia|].
      eexists; split; [reflexivity|]. simpl. split; [exact B2|]. split.
      * apply (map_get_set_same String.eqb String.eqb_eq).
      * rewrite (map_set_length_present String.eqb); auto.
    + intro Hc. destruct (RATE_LIMIT_MAX_REQUESTS cfg <? 1) eqn:L;
        [reflexivity|apply Z.ltb_ge in L; lia].
Qed.

(** C7, as the code has it: the count of an identity does not survive the
    [MAX_RATE_LIMIT_ENTRIES] cap.  Client "A" makes 120 reads at time 0 (the
    limit of the default configuration), 1000 other clients one read each at
    time 1, which pushes the table past 1000 entries and evicts the entry of
    "A" (the smallest [resetTime]); the 121st read of "A", at time 2 and in
    the same window, is allowed. *)
Lemma C7_cap_eviction_restarts_count :
  let reqs := repeat ("A", false, 0) 120 ++ map (fun i => (ip_of i, false, 1)) (seq 0 1000)
              ++ [("A", false, 2)] in
  RATE_LIMIT_MAX_REQUESTS default_config = 120 /\
  fst (run_rl default_config reqs (mk_limiter [] [])) = repeat RLNext 1121.
Proof. vm_compute. split; reflexivity. Qed.

(** C3, as the code has it: when the window of an entry has ended, the next
    request replaces the entry by [{count: 0, announceCount: 0, resetTime:
    now + RATE_LIMIT_WINDOW, violations: 0}] and counts itself in it: the
    stored [violations] are dropped, whatever they were. *)
Theorem C3_rollover_clears_violations (cfg : config) (ip : string) (post : bool) (now : Z)
    (lim : limiter) (e : rl_entry) :
  DISABLE_RATE_LIMIT cfg = false -> is_localhost ip = false ->
  (forall b, map_get String.eqb ip (blockedIPs lim) = Some b -> blockedUntil b <= now) ->
  map_get String.eqb ip (rateLimitMap lim) = Some e ->
  resetTime e < now ->
  Z.of_nat (length (rateLimitMap lim)) <= MAX_RATE_LIMIT_ENTRIES ->
  0 < rl_threshold cfg post ->
  exists lim', rateLimit cfg ip post now lim = (RLNext, lim') /\
    map_get String.eqb ip (rateLimitMap lim') =
      Some (entry_of post 1 (now + RATE_LIMIT_WINDOW)) /\
    violations (entry_of post 1 (now + RATE_LIMIT_WINDOW)) = 0.
Proof.
  intros Hd Hl Hb Hg Hr Hn H0.
  assert (He : forall e', map_get String.eqb ip (rateLimitMap lim) = Some e' -> resetTime e' < now)
    by (intros e' H; rewrite Hg in H; inversion H; subst; exact Hr).
  assert (Hn1 : Z.of_nat (length (map_set String.eqb ip (mk_rl 0 0 (now + RATE_LIMIT_WINDOW) 0)
                                    (rateLimitMap lim))) <= MAX_RATE_LIMIT_ENTRIES).
  { rewrite (map_set_length_present String.eqb); [exact Hn|].
    unfold map_has. rewrite Hg. reflexivity. }
  destruct (rl_step_first cfg ip post now lim Hd Hl Hb He Hn1) as [Hlt _].
  destruct (Hlt H0) as [lim' [E [_ [G _]]]].
  exists lim'. split; [exact E|]. split; [exact G|]. destruct post; reflexivity.
Qed.

Lemma C3_rollover_clears_violations_witness :
  exists lim',
    rateLimit default_config "1.2.3.4" false 60001
      (mk_limiter [("1.2.3.4", mk_rl 5 0 60000 3)] []) = (RLNext, lim') /\
    map_get String.eqb "1.2.3.4" (rateLimitMap lim') =
      Some (entry_of false 1 (60001 + RATE_LIMIT_WINDOW)) /\
    violations (entry_of false 1 (60001 + RATE_LIMIT_WINDOW)) = 0.
Proof.
  apply (C3_rollover_clears_violations default_config "1.2.3.4" false 60001
           (mk_limiter [("1.2.3.4", mk_rl 5 0 60000 3)] []) (mk_rl 5 0 60000 3)).
  - reflexivity.
  - reflexivity.
  - intros b H. discriminate H.
  - reflexivity.
  - vm_compute. reflexivity.
  - vm_compute. discriminate.
  - vm_compute. reflexivity.
Defined.

(** C8, as the code has it: violations are counted per window only, so ten
    violations spread over two windows never reach [MAX_VIOLATIONS].  25
    announces at times 0..24 and 25 more at 60001..60025 from one client are
    refused ten times in all, yet no block is recorded and the next read of
    that client is let through. *)
Lemma C8_spread_violations_never_block :
  let reqs := map (fun t => ("1.2.3.4", true, t)) (times 0 25 ++ times 60001 25)
              ++ [("1.2.3.4", false, 60026)] in
  let '(os, lim) := run_rl default_config reqs (mk_limiter [] []) in
  MAX_VIOLATIONS default_config = 10 /\
  length (filter is_limited os) = 10%nat /\
  blockedIPs lim = [] /\
  last os RLNext = RLNext.
Proof. vm_compute. repeat split. Qed.

(** C4, as the code has it: the room limit is enforced before the lookup,
    so an update of a stored room at [MAX_ROOMS] also evicts the oldest room.
    With the 100 sample rooms, re-announcing "r50" removes "r0" and leaves 99
    rooms. *)
Lemma C4_update_at_capacity_evicts :
  let '(res, rs', _) :=
    post_announce (sample_rooms 100) (mk_nonce_store [] []) (sample_data "r50") 5000 in
  rooms_size (sample_rooms 100) = MAX_ROOMS /\
  map_has jsval_eqb (JStr "r50") (sample_rooms 100) = true /\
  map_has jsval_eqb (JStr "r0") (sample_rooms 100) = true /\
  (match res with PostOk _ => true | PostRejected _ => false end) = true /\
  map_has jsval_eqb (JStr "r0") rs' = false /\
  rooms_size rs' = 99.
Proof. vm_compute. repeat split. Qed.

(** ** Expiry *)

Lemma room_expired_stale cfg now r :
  Room.updatedAt r <> 0 -> room_expired cfg now r = stale cfg now r.
Proof.
  intro H. unfold room_expired, last_activity, js_or, stale. simpl.
  destruct (Room.updatedAt r =? 0) eqn:E; [apply Z.eqb_eq in E; contradiction|].
  simpl. rewrite E. reflexivity.
Qed.

Lemma In_firstn_sub {A} n (l : list A) x : In x (firstn n l) -> In x l.
Proof. intro H. rewrite <- (firstn_skipn n l). apply in_or_app. left. exact H. Qed.

Lemma In_skipn_sub {A} n (l : list A) x : In x (skipn n l) -> In x l.
Proof. intro H. rewrite <- (firstn_skipn n l). apply in_or_app. right. exact H. Qed.

Lemma In_js_slice {A} (l : list A) a b x : In x (js_slice l a b) -> In x l.
Proof. unfold js_slice. intro H. apply In_firstn_sub in H. apply In_skipn_sub in H. exact H. Qed.

Lemma filter_sort_sub q rs r : In r (filter_sort q rs) -> In r (map snd rs).
Proof.
  unfold filter_sort. cbv zeta. rewrite stable_sort_In.
  repeat match goal with
         | |- context [if ?b then _ else _] => destruct b
         end;
  intro H; repeat (apply filter_In in H as [H _]); exact H.
Qed.

Lemma Forall_filter_sub {A} (Q : A -> Prop) f l : Forall Q l -> Forall Q (filter f l).
Proof.
  intro H. apply Forall_forall. intros x Hx. apply filter_In in Hx as [Hx _].
  rewrite Forall_forall in H. auto.
Qed.

Section Preserve.
Variable P : Room.t -> Prop.

Lemma Forall_rooms_delete k (rs : rooms_t) :
  Forall (fun p => P (snd p)) rs -> Forall (fun p => P (snd p)) (rooms_delete k rs).
Proof. intro H. unfold rooms_delete, map_delete. apply Forall_filter_sub. exact H. Qed.

Lemma Forall_rooms_set k v (rs : rooms_t) :
  Forall (fun p => P (snd p)) rs -> P v -> Forall (fun p => P (snd p)) (rooms_set k v rs).
Proof.
  intros H Hv. unfold rooms_set, map_set. destruct (map_has jsval_eqb k rs).
  - apply Forall_map. eapply Forall_impl; [|exact H].
    intros [a b] Hb. simpl. destruct (jsval_eqb a k); exact Hb || exact Hv.
  - apply Forall_app. split; [exact H|]. constructor; [exact Hv|constructor].
Qed.

Lemma Forall_enforce_room_limit rs :
  Forall (fun p => P (snd p)) rs -> Forall (fun p => P (snd p)) (enforce_room_limit rs).
Proof.
  intro H. unfold enforce_room_limit.
  destruct (MAX_ROOMS <=? rooms_size rs); [|exact H].
  destruct (stable_sort by_createdAt rs) as [|[k r] t]; [exact H|].
  apply Forall_rooms_delete. exact H.
Qed.

Lemma Forall_sweep cfg now rs :
  Forall (fun p => P (snd p)) rs -> Forall (fun p => P (snd p)) (sweep_expired cfg now rs).
Proof. intro H. apply Forall_filter_sub. exact H. Qed.

Lemma Forall_room_cleanup_tick cfg now rs :
  Forall (fun p => P (snd p)) rs -> Forall (fun p => P (snd p)) (room_cleanup_tick cfg now rs).
Proof.
  intro H. unfold room_cleanup_tick. apply (Forall_sweep cfg now) in H.
  destruct (MAX_ROOMS <? rooms_size (sweep_expired cfg now rs)); [|exact H].
  generalize (firstn (Z.to_nat (rooms_size (sweep_expired cfg now rs) - MAX_ROOMS))
                (stable_sort by_createdAt (sweep_expired cfg now rs))).
  intro l. revert H. generalize (sweep_expired cfg now rs).
  induction l as [|[k v] l IH]; intros rs1 H; simpl; [exact H|].
  apply IH. apply Forall_rooms_delete. exact H.
Qed.
End Preserve.

Lemma step_updatedAt_nonzero cfg st ev now :
  now <> 0 ->
  Forall (fun p => Room.updatedAt (snd p) <> 0) (rooms st) ->
  Forall (fun p => Room.updatedAt (snd p) <> 0) (rooms (snd (step cfg st ev now))).
Proof.
  intros Hnow H. destruct ev as [r| | | |]; simpl; try exact H.
  - destruct (rateLimit cfg (request_ip r) (request_is_post r) now (limits st)) as [o lim].
    destruct o; simpl; try exact H.
    destruct r as [ip q|ip d|ip]; simpl.
    + unfold get_announce. destruct (validateQueryParams q); simpl;
        [apply (Forall_sweep (fun r => Room.updatedAt r <> 0)); exact H|exact H].
    + unfold post_announce. destruct (validateAnnouncement d now (nonces st)) as [[|e es] ns'].
      * unfold upsert_room.
        pose proof (Forall_enforce_room_limit (fun r => Room.updatedAt r <> 0) (rooms st) H) as H1.
        destruct (rooms_get (Data.roomId d) (enforce_room_limit (rooms st))); simpl;
          apply (Forall_rooms_set (fun r => Room.updatedAt r <> 0)); auto.
      * exact H.
    + apply (Forall_sweep (fun r => Room.updatedAt r <> 0)). exact H.
  - apply (Forall_room_cleanup_tick (fun r => Room.updatedAt r <> 0)). exact H.
Qed.

(** C5: when every stored room has a last activity ([updatedAt] is set to
    [Date.now()] on every write), the sweep keeps exactly the rooms that are
    not stale, i.e. whose [updatedAt] is at most [PEER_TIMEOUT] seconds
    before now; a listing returns only such rooms and stores the swept
    registry; the statistics are those of the rooms that are not stale; the
    periodic tick removes the stale rooms and, unless more than [MAX_ROOMS]
    remain, nothing else; and every event performed at a time other than 0
    keeps [updatedAt] set on all rooms. *)
Theorem C5_expired_rooms_hidden_and_swept (cfg : config) (now : Z) (rs : rooms_t) :
  Forall (fun p => Room.updatedAt (snd p) <> 0) rs ->
  (forall k r, In (k, r) (sweep_expired cfg now rs) <-> In (k, r) rs /\ stale cfg now r = false) /\
  (forall q resp rs', get_announce cfg rs q now = (GetOk resp, rs') ->
     rs' = sweep_expired cfg now rs /\
     forall r, In r (lr_rooms resp) -> In r (map snd rs) /\ stale cfg now r = false) /\
  fst (scrape cfg rs now) =
    compute_stats (map snd (filter (fun p => negb (stale cfg now (snd p))) rs)) /\
  (rooms_size (sweep_expired cfg now rs) <= MAX_ROOMS ->
   room_cleanup_tick cfg now rs = sweep_expired cfg now rs) /\
  (forall st ev t,
     t <> 0 ->
     Forall (fun p => Room.updatedAt (snd p) <> 0) (rooms st) ->
     Forall (fun p => Room.updatedAt (snd p) <> 0) (rooms (snd (step cfg st ev t)))).
Proof.
  intros H.
  assert (Hsw : sweep_expired cfg now rs = filter (fun p => negb (stale cfg now (snd p))) rs).
  { unfold sweep_expired. induction H as [|[k r] rs Hr H IH]; simpl; [reflexivity|].
    simpl in Hr. rewrite (room_expired_stale cfg now r Hr). rewrite IH. reflexivity. }
  assert (Hin : forall k r, In (k, r) (sweep_expired cfg now rs) <->
                            In (k, r) rs /\ stale cfg now r = false).
  { intros k r. rewrite Hsw, filter_In. simpl. rewrite negb_true_iff. tauto. }
  split; [exact Hin|].
  split.
  { intros q resp rs' G. unfold get_announce in G.
    destruct (validateQueryParams q); [|discriminate G].
    inversion G; subst; clear G. split; [reflexivity|].
    intros r Hr. simpl in Hr. apply In_js_slice, filter_sort_sub in Hr.
    apply in_map_iff in Hr as [[k r'] [E Hr]]. simpl in E. subst r'.
    apply Hin in Hr as [Hr Hs]. split; [|exact Hs].
    apply in_map_iff. exists (k, r). auto. }
  split; [unfold scrape; simpl; rewrite Hsw; reflexivity|].
  split.
  { intro Hle. unfold room_cleanup_tick.
    destruct (MAX_ROOMS <? rooms_size (sweep_expired cfg now rs)) eqn:E;
      [apply Z.ltb_lt in E; lia|reflexivity]. }
  intros st ev t Ht Hst. apply step_updatedAt_nonzero; assumption.
Qed.

Lemma C5_expired_rooms_hidden_and_swept_witness :
  let rs := [(JStr "old", sample_room "old" 1000); (JStr "new", sample_room "new" 500000)] in
  Forall (fun p => Room.updatedAt (snd p) <> 0) rs /\
  stale default_config 700000 (sample_room "old" 1000) = true /\
  ((forall k r, In (k, r) (sweep_expired default_config 700000 rs) <->
                In (k, r) rs /\ stale default_config 700000 r = false) /\
   (forall q resp rs', get_announce default_config rs q 700000 = (GetOk resp, rs') ->
      rs' = sweep_expired default_config 700000 rs /\
      forall r, In r (lr_rooms resp) -> In r (map snd rs) /\ stale default_config 700000 r = false) /\
   fst (scrape default_config rs 700000) =
     compute_stats (map snd (filter (fun p => negb (stale default_config 700000 (snd p))) rs)) /\
   (rooms_size (sweep_expired default_config 700000 rs) <= MAX_ROOMS ->
    room_cleanup_tick default_config 700000 rs = sweep_expired default_config 700000 rs) /\
   (forall st ev t,
      t <> 0 ->
      Forall (fun p => Room.updatedAt (snd p) <> 0) (rooms st) ->
      Forall (fun p => Room.updatedAt (snd p) <> 0)
             (rooms (snd (step default_config st ev t))))).
Proof.
  intro rs.
  assert (H : Forall (fun p => Room.updatedAt (snd p) <> 0) rs).
  { repeat constructor; simpl; discriminate. }
  split; [exact H|]. split; [vm_compute; reflexivity|].
  exact (C5_expired_rooms_hidden_and_swept default_config 700000 rs H).
Defined.

(** ** Pagination *)

Lemma firstn_plus {A} n k (l : list A) :
  firstn (n + k) l = firstn n l ++ firstn k (skipn n l).
Proof.
  revert l. induction n as [|n IH]; intros l; [reflexivity|].
  destruct l as [|x l]; simpl; [destruct k; reflexivity|]. f_equal. apply IH.
Qed.

Lemma concat_pages_nat {A} (L : list A) n m : forall a,
  List.concat (map (fun i => firstn n (skipn (a + i * n) L)) (seq 0 m)) = firstn (m * n) (skipn a L).
Proof.
  induction m as [|m IH]; intros a; [reflexivity|].
  change (seq 0 (S m)) with (0%nat :: seq 1 m). rewrite <- (seq_shift m 0).
  cbn [map List.concat]. rewrite map_map.
  replace (map (fun x => firstn n (skipn (a + S x * n) L)) (seq 0 m))
    with (map (fun i => firstn n (skipn ((a + n) + i * n) L)) (seq 0 m))
    by (apply map_ext; intro i; f_equal; f_equal; lia).
  rewrite IH. rewrite Nat.mul_0_l, Nat.add_0_r.
  change (S m * n)%nat with (n + m * n)%nat. rewrite firstn_plus, skipn_skipn.
  replace (n + a)%nat with (a + n)%nat by lia. reflexivity.
Qed.

Lemma js_slice_length {A} (L : list A) k n :
  0 <= k -> 0 <= n ->
  Z.of_nat (length (js_slice L k (k + n))) = Z.min n (Z.max 0 (Z.of_nat (length L) - k)).
Proof.
  intros Hk Hn. unfold js_slice. rewrite length_firstn, length_skipn.
  replace (k + n - k) with n by lia. lia.
Qed.

Lemma js_slice_past_end {A} (L : list A) k n :
  Z.of_nat (length L) <= k -> js_slice L k (k + n) = [].
Proof.
  intro H. unfold js_slice. rewrite skipn_all2 by lia. destruct (Z.to_nat _); reflexivity.
Qed.

Lemma concat_pages {A} (L : list A) (n : Z) (m : nat) :
  0 < n -> Z.of_nat (length L) <= Z.of_nat m * n ->
  List.concat (map (fun i => js_slice L (Z.of_nat i * n) (Z.of_nat i * n + n)) (seq 0 m)) = L.
Proof.
  intros Hn Hm.
  transitivity (List.concat (map (fun i => firstn (Z.to_nat n) (skipn (0 + i * Z.to_nat n) L)) (seq 0 m))).
  - f_equal. apply map_ext. intro i. unfold js_slice. f_equal; f_equal; lia.
  - rewrite concat_pages_nat. simpl. apply firstn_all2. lia.
Qed.

(** C6: when the query parameters are valid, the listing answers (an offset
    past the end is no error) with [total] the length of the filtered and
    sorted list [L], [offset = k >= 0] and [limit = n >= 1] as parsed, and
    the rooms [L.slice(k, k + n)], of which there are [min(n, max(0, total -
    k))], none when [k >= total]; and the pages [0, n, 2n, ...] of [L],
    enough of them to cover [L], concatenate back to [L]. *)
Theorem C6_pagination (cfg : config) (rs : rooms_t) (q : query_params) (now : Z) :
  validateQueryParams q = [] ->
  exists resp rs',
    get_announce cfg rs q now = (GetOk resp, rs') /\
    let L := filter_sort q rs' in
    let k := lr_offset resp in
    let n := lr_limit resp in
    lr_total resp = Z.of_nat (length L) /\
    k = Z.max 0 (int_or (q_offset q) 0) /\
    n = Z.min (Z.max 1 (int_or (q_limit q) 50)) 200 /\
    0 <= k /\ 1 <= n <= 200 /\
    lr_rooms resp = js_slice L k (k + n) /\
    Z.of_nat (length (lr_rooms resp)) = Z.min n (Z.max 0 (lr_total resp - k)) /\
    (lr_total resp <= k -> lr_rooms resp = []) /\
    (forall m : nat, lr_total resp <= Z.of_nat m * n ->
       List.concat (map (fun i => js_slice L (Z.of_nat i * n) (Z.of_nat i * n + n)) (seq 0 m)) = L).
Proof.
  intro Hv. unfold get_announce. rewrite Hv.
  eexists; eexists; split; [reflexivity|]. cbv zeta. simpl.
  set (L := filter_sort q (sweep_expired cfg now rs)).
  set (k := Z.max 0 (int_or (q_offset q) 0)).
  set (n := Z.min (Z.max 1 (int_or (q_limit q) 50)) 200).
  assert (Hk : 0 <= k) by (unfold k; lia).
  assert (Hn : 1 <= n <= 200) by (unfold n; lia).
  split; [reflexivity|]. split; [reflexivity|]. split; [reflexivity|].
  split; [exact Hk|]. split; [exact Hn|]. split; [reflexivity|].
  split; [apply js_slice_length; lia|].
  split; [intro H; apply js_slice_past_end; exact H|].
  intros m Hm. apply concat_pages; [lia|exact Hm].
Qed.

Lemma C6_pagination_witness :
  let q := mk_query None None None None None None (Some "1") (Some "1") None in
  validateQueryParams q = [] /\
  exists resp rs',
    get_announce default_config (sample_rooms 3) q 2000 = (GetOk resp, rs') /\
    let L := filter_sort q rs' in
    let k := lr_offset resp in
    let n := lr_limit resp in
    lr_total resp = Z.of_nat (length L) /\
    k = Z.max 0 (int_or (q_offset q) 0) /\
    n = Z.min (Z.max 1 (int_or (q_limit q) 50)) 200 /\
    0 <= k /\ 1 <= n <= 200 /\
    lr_rooms resp = js_slice L k (k + n) /\
    Z.of_nat (length (lr_rooms resp)) = Z.min n (Z.max 0 (lr_total resp - k)) /\
    (lr_total resp <= k -> lr_rooms resp = []) /\
    (forall m : nat, lr_total resp <= Z.of_nat m * n ->
       List.concat (map (fun i => js_slice L (Z.of_nat i * n) (Z.of_nat i * n + n)) (seq 0 m)) = L).
Proof.
  intro q.
  assert (Hv : validateQueryParams q = []) by (vm_compute; reflexivity).
  split; [exact Hv|].
  exact (C6_pagination default_config (sample_rooms 3) q 2000 Hv).
Defined.

(** ** The nonce guard *)

Lemma dup_not_in_fields d now : ~ In dup_msg (validate_fields d now).
Proof.
  unfold validate_fields, err_if. cbv zeta. intro H.
  repeat (apply in_app_or in H; destruct H as [H|H]);
  repeat match type of H with
         | context [if ?c then _ else _] => destruct c
         | context [match ?c with Some _ => _ | None => _ end] => destruct c
         end;
  simpl in H; repeat (destruct H as [H|H]); try contradiction; discriminate H.
Qed.

Lemma set_delete_length_le x l : (length (set_delete x l) <= length l)%nat.
Proof. unfold set_delete. induction l as [|a l IH]; simpl; [lia|]. destruct (negb _); simpl; lia. Qed.

Lemma set_delete_length_lt x l : In x l -> (length (set_delete x l) < length l)%nat.
Proof.
  induction l as [|a l IH]; simpl; [tauto|]. intros [<-|H].
  - unfold set_delete. simpl. rewrite jsval_eqb_refl. simpl.
    pose proof (set_delete_length_le a l) as L. unfold set_delete in L. lia.
  - unfold set_delete in *. simpl. destruct (negb (jsval_eqb a x)); simpl; specialize (IH H); lia.
Qed.

Lemma set_has_app_last x l : set_has x (l ++ [x]) = true.
Proof. unfold set_has. rewrite existsb_app. simpl. rewrite jsval_eqb_refl. apply orb_true_r. Qed.

Lemma check_nonce_fresh n now ns :
  truthy n = true -> set_has n (usedNonces ns) = false ->
  check_nonce n now ns =
    ([], mk_nonce_store
           ((if MAX_NONCES <=? Z.of_nat (length (usedNonces ns))
             then set_delete (hd JUndef (usedNonces ns)) (usedNonces ns)
             else usedNonces ns) ++ [n])
           (nonceTimers ns ++ [(now + NONCE_CLEANUP_INTERVAL, n)])).
Proof.
  intros Ht Hs. unfold check_nonce. rewrite Ht, Hs.
  destruct (MAX_NONCES <=? Z.of_nat (length (usedNonces ns))); reflexivity.
Qed.

Lemma check_nonce_dup n now ns :
  truthy n = true -> set_has n (usedNonces ns) = true ->
  check_nonce n now ns =
    ([dup_msg], mk_nonce_store (usedNonces ns)
                  (nonceTimers ns ++ [(now + NONCE_CLEANUP_INTERVAL, n)])).
Proof. intros Ht Hs. unfold check_nonce. rewrite Ht, Hs. reflexivity. Qed.

(** C9, as the code has it: the guard is [if (data.nonce)], so a falsy
    nonce such as [0] is never checked nor recorded: the same announcement
    with nonce [0] is accepted twice and the set of used nonces stays empty. *)
Lemma C9_falsy_nonce_unguarded :
  let d := Data_ext.with_nonce (sample_data "r1") (JNum 0) in
  let '(r1, rs1, ns1) := post_announce [] (mk_nonce_store [] []) d 2000 in
  let '(r2, _, ns2) := post_announce rs1 ns1 d 2001 in
  truthy (Data.nonce d) = false /\
  (match r1 with PostOk _ => true | PostRejected _ => false end) = true /\
  (match r2 with PostOk _ => true | PostRejected _ => false end) = true /\
  usedNonces ns2 = [].
Proof. vm_compute. repeat split. Qed.

(** C9 (amended): for a truthy nonce, validation against a set that does
    not hold it adds no error of its own (the errors are those of the other
    fields) and records it, after removing the first inserted entry when the
    set holds [MAX_NONCES] or more, so a set of at most [MAX_NONCES] entries
    stays so; against a set that holds it, validation reports the duplicate
    and leaves the set as it was. *)
Theorem C9_nonce_guard (d : Data.t) (now : Z) (ns : nonce_store) :
  truthy (Data.nonce d) = true ->
  let '(errs, ns') := validateAnnouncement d now ns in
  (set_has (Data.nonce d) (usedNonces ns) = false ->
     errs = validate_fields d now /\ ~ In dup_msg errs /\
     usedNonces ns' =
       (if MAX_NONCES <=? Z.of_nat (length (usedNonces ns))
        then set_delete (hd JUndef (usedNonces ns)) (usedNonces ns)
        else usedNonces ns) ++ [Data.nonce d] /\
     set_has (Data.nonce d) (usedNonces ns') = true /\
     (Z.of_nat (length (usedNonces ns)) <= MAX_NONCES ->
      Z.of_nat (length (usedNonces ns')) <= MAX_NONCES)) /\
  (set_has (Data.nonce d) (usedNonces ns) = true ->
     In dup_msg errs /\ usedNonces ns' = usedNonces ns).
Proof.
  intro Ht. unfold validateAnnouncement.
  destruct (set_has (Data.nonce d) (usedNonces ns)) eqn:Hs.
  - rewrite (check_nonce_dup _ now ns Ht Hs). simpl.
    split; [discriminate|]. intros _. split; [|reflexivity].
    apply in_or_app. right. left. reflexivity.
  - rewrite (check_nonce_fresh _ now ns Ht Hs). simpl.
    split; [|discriminate]. intros _. rewrite app_nil_r.
    split; [reflexivity|]. split; [apply dup_not_in_fields|].
    split; [reflexivity|]. split; [apply set_has_app_last|].
    intro Hle. rewrite length_app. simpl length.
    destruct (MAX_NONCES <=? Z.of_nat (length (usedNonces ns))) eqn:Hm.
    + apply Z.leb_le in Hm.
      destruct (usedNonces ns) as [|h t] eqn:U; [unfold MAX_NONCES in Hm; simpl in Hm; lia|].
      pose proof (set_delete_length_lt h (h :: t) (or_introl eq_refl)) as L.
      simpl hd. lia.
    + apply Z.leb_gt in Hm. lia.
Qed.

Lemma C9_nonce_guard_witness :
  truthy (Data.nonce (Data_ext.with_nonce (sample_data "r1") (JStr "n1"))) = true /\
  let '(errs, ns') := validateAnnouncement (Data_ext.with_nonce (sample_data "r1") (JStr "n1"))
                        2000 (mk_nonce_store [JStr "n0"] []) in
  (set_has (Data.nonce (Data_ext.with_nonce (sample_data "r1") (JStr "n1")))
      (usedNonces (mk_nonce_store [JStr "n0"] [])) = false ->
     errs = validate_fields (Data_ext.with_nonce (sample_data "r1") (JStr "n1")) 2000 /\
     ~ In dup_msg errs /\
     usedNonces ns' =
       (if MAX_NONCES <=? Z.of_nat (length (usedNonces (mk_nonce_store [JStr "n0"] [])))
        then set_delete (hd JUndef (usedNonces (mk_nonce_store [JStr "n0"] [])))
               (usedNonces (mk_nonce_store [JStr "n0"] []))
        else usedNonces (mk_nonce_store [JStr "n0"] []))
       ++ [Data.nonce (Data_ext.with_nonce (sample_data "r1") (JStr "n1"))] /\
     set_has (Data.nonce (Data_ext.with_nonce (sample_data "r1") (JStr "n1"))) (usedNonces ns') = true /\
     (Z.of_nat (length (usedNonces (mk_nonce_store [JStr "n0"] []))) <= MAX_NONCES ->
      Z.of_nat (length (usedNonces ns')) <= MAX_NONCES)) /\
  (set_has (Data.nonce (Data_ext.with_nonce (sample_data "r1") (JStr "n1")))
      (usedNonces (mk_nonce_store [JStr "n0"] [])) = true ->
     In dup_msg errs /\ usedNonces ns' = usedNonces (mk_nonce_store [JStr "n0"] [])).
Proof.
  assert (Ht : truthy (Data.nonce (Data_ext.with_nonce (sample_data "r1") (JStr "n1"))) = true)
    by reflexivity.
  split; [exact Ht|].
  exact (C9_nonce_guard (Data_ext.with_nonce (sample_data "r1") (JStr "n1")) 2000
           (mk_nonce_store [JStr "n0"] []) Ht).
Defined.




(* ========================================================================= *)
(** * Further properties of the code *)

Section MapLemmas3.
Context {K V : Type} (keqb : K -> K -> bool).
Hypothesis keqb_spec : forall a b, keqb a b = true <-> a = b.

Lemma map_get_delete_same k (m : list (K * V)) : map_get keqb k (map_delete keqb k m) = None.
Proof.
  apply map_get_None. apply (map_delete_has_not keqb keqb_spec).
Qed.

Lemma map_get_delete_other k k' (m : list (K * V)) :
  k' <> k -> map_get keqb k' (map_delete keqb k m) = map_get keqb k' m.
Proof.
  intro Hne. unfold map_delete. induction m as [|[a b] m IH]; simpl; [reflexivity|].
  destruct (keqb a k) eqn:E; simpl.
  - apply keqb_spec in E. subst a. rewrite (keqb_false keqb keqb_spec k k'); auto.
  - destruct (keqb a k'); auto.
Qed.

Lemma map_set_keys k v (m : list (K * V)) :
  map fst (map_set keqb k v m) =
  if map_has keqb k m then map fst m else map fst m ++ [k].
Proof.
  unfold map_set. destruct (map_has keqb k m).
  - induction m as [|[a b] m IH]; simpl; [reflexivity|].
    destruct (keqb a k); simpl; f_equal; exact IH.
  - rewrite map_app. reflexivity.
Qed.

Lemma NoDup_app_last (l : list K) k : NoDup l -> ~ In k l -> NoDup (l ++ [k]).
Proof.
  induction l as [|a l IH]; simpl; intros H Hn.
  - constructor; [tauto|constructor].
  - inversion H; subst. constructor.
    + rewrite in_app_iff. simpl. intuition.
    + apply IH; auto.
Qed.

Lemma map_set_NoDup k v (m : list (K * V)) :
  NoDup (map fst m) -> NoDup (map fst (map_set keqb k v m)).
Proof.
  intro H. rewrite map_set_keys. destruct (map_has keqb k m) eqn:E; [exact H|].
  apply NoDup_app_last; [exact H|].
  intro Hin. apply (map_has_In keqb keqb_spec) in Hin. congruence.
Qed.

Lemma map_set_keys_incl k v (m : list (K * V)) (ks : list K) :
  incl (map fst m) ks -> In k ks -> incl (map fst (map_set keqb k v m)) ks.
Proof.
  intros H Hk. rewrite map_set_keys. destruct (map_has keqb k m); [exact H|].
  intros x Hx. apply in_app_iff in Hx as [Hx|[<-|[]]]; auto.
Qed.

Lemma map_delete_NoDup k (m : list (K * V)) :
  NoDup (map fst m) -> NoDup (map fst (map_delete keqb k m)).
Proof.
  unfold map_delete. induction m as [|[a b] m IH]; simpl; intro H; [constructor|].
  inversion H; subst. destruct (negb (keqb a k)); simpl; [|auto].
  constructor; [|auto]. intro Hin. apply in_map_iff in Hin as [[a' b'] [Ha Hin]].
  simpl in Ha. subst a'. apply filter_In in Hin as [Hin _].
  apply H2. apply in_map_iff. exists (a, b'). auto.
Qed.

Lemma map_delete_keys_incl k (m : list (K * V)) :
  incl (map fst (map_delete keqb k m)) (map fst m).
Proof.
  intros x Hx. apply in_map_iff in Hx as [p [Hp Hin]].
  apply (map_delete_In keqb keqb_spec) in Hin as [Hin _]. apply in_map_iff. eauto.
Qed.

(** Deleting the keys of [l], all distinct and present, removes exactly
    [length l] entries. *)
Lemma fold_delete_length (l m : list (K * V)) :
  NoDup (map fst m) -> NoDup (map fst l) -> incl (map fst l) (map fst m) ->
  length (fold_left (fun acc '(k, _) => map_delete keqb k acc) l m) = (length m - length l)%nat /\
  NoDup (map fst (fold_left (fun acc '(k, _) => map_delete keqb k acc) l m)).
Proof.
  revert m. induction l as [|[k v] l IH]; intros m Hm Hl Hi; simpl; [split; [lia|exact Hm]|].
  inversion Hl as [|? ? Hk Hl']; subst.
  assert (Kin : In k (map fst m)) by (apply Hi; left; reflexivity).
  destruct (IH (map_delete keqb k m)) as [L N].
  - apply map_delete_NoDup; exact Hm.
  - exact Hl'.
  - intros x Hx. apply in_map_iff in Hx as [[x' y] [Hx Hin]]. simpl in Hx. subst x'.
    assert (In x (map fst m)) as Hxm by (apply Hi; right; apply in_map_iff; exists (x, y); auto).
    apply in_map_iff in Hxm as [[x'' y'] [E Hxm]]. simpl in E. subst x''.
    apply in_map_iff. exists (x, y'). split; [reflexivity|].
    apply (map_delete_In keqb keqb_spec). split; [exact Hxm|]. simpl.
    intro E. subst x. apply Hk. apply in_map_iff. exists (k, y). auto.
  - split; [|exact N]. rewrite L.
    rewrite (map_delete_length_nodup keqb keqb_spec k m Hm Kin).
    pose proof (length_map fst m) as LM.
    assert (length m <> 0%nat) by (destruct m; simpl in Kin; [contradiction|discriminate]).
    lia.
Qed.
End MapLemmas3.

Section SortLemmas2.
Context {A : Type} (cmp' : A -> A -> option Z).

Lemma insert_sorted_perm x l : Permutation (insert_sorted cmp' x l) (x :: l).
Proof.
  induction l as [|y l IH]; simpl; [reflexivity|].
  destruct (before cmp' y x).
  - etransitivity; [apply perm_skip; exact IH|]. apply perm_swap.
  - reflexivity.
Qed.

Lemma stable_sort_perm l : Permutation (stable_sort cmp' l) l.
Proof.
  induction l as [|x l IH]; simpl; [reflexivity|].
  etransitivity; [apply insert_sorted_perm|]. apply perm_skip. exact IH.
Qed.

Variable P : A -> Prop.
Variable R : A -> A -> Prop.
Hypothesis R_before : forall a b, P a -> P b -> before cmp' b a = true -> R b a.
Hypothesis R_not_before : forall a b, P a -> P b -> before cmp' b a = false -> R a b.

Lemma insert_sorted_Sorted x l :
  P x -> Forall P l -> Sorted R l -> Sorted R (insert_sorted cmp' x l).
Proof.
  intros Px. induction l as [|y l IH]; simpl; intros Fl Sl.
  - repeat constructor.
  - inversion Fl as [|? ? Py Fl']; subst.
    destruct (before cmp' y x) eqn:B.
    + apply Sorted_inv in Sl as [Sl Hd]. constructor; [apply IH; auto|].
      destruct l as [|z l]; simpl.
      * constructor. apply R_before; auto.
      * inversion Fl' as [|? ? Pz _]; subst.
        destruct (before cmp' z x) eqn:B'; constructor.
        -- inversion Hd; assumption.
        -- apply R_before; auto.
    + constructor; [exact Sl|]. constructor. apply R_not_before; auto.
Qed.

Lemma stable_sort_Sorted l : Forall P l -> Sorted R (stable_sort cmp' l).
Proof.
  induction l as [|x l IH]; simpl; intro F; [constructor|].
  inversion F; subst. apply insert_sorted_Sorted; auto.
  apply Forall_forall. intros y Hy. apply (Permutation_in _ (stable_sort_perm l)) in Hy.
  rewrite Forall_forall in *. auto.
Qed.
End SortLemmas2.

Lemma Sorted_skipn {A} (R : A -> A -> Prop) n (l : list A) : Sorted R l -> Sorted R (skipn n l).
Proof.
  revert l. induction n as [|n IH]; intros l H; simpl; [exact H|].
  destruct l as [|a l]; [constructor|]. apply Sorted_inv in H as [H _]. auto.
Qed.

Lemma Sorted_firstn {A} (R : A -> A -> Prop) n (l : list A) : Sorted R l -> Sorted R (firstn n l).
Proof.
  revert l. induction n as [|n IH]; intros l H; simpl; [constructor|].
  destruct l as [|a l]; [constructor|]. apply Sorted_inv in H as [H Hd].
  constructor; [auto|]. destruct n, l; simpl; constructor. inversion Hd; assumption.
Qed.

Lemma nodup_strs_NoDup l : nodup_strs l = true -> NoDup l.
Proof.
  induction l as [|x l IH]; simpl; intro H; [constructor|].
  apply andb_true_iff in H as [H1 H2]. constructor; [|auto].
  intro Hin. apply negb_true_iff in H1.
  assert (existsb (String.eqb x) l = true) as E.
  { apply existsb_exists. exists x. split; [exact Hin|apply String.eqb_refl]. }
  congruence.
Qed.

Lemma NoDup_nodup_strs l : NoDup l -> nodup_strs l = true.
Proof.
  induction 1 as [|x l Hx _ IH]; simpl; [reflexivity|].
  rewrite IH, andb_true_r. apply negb_true_iff. apply Bool.not_true_iff_false.
  intro E. apply existsb_exists in E as [y [Hy E]]. apply String.eqb_eq in E. subst. contradiction.
Qed.


Lemma substring_0_length n s : (String.length (String.substring 0 n s) <= n)%nat.
Proof.
  revert s. induction n as [|n IH]; intros s; destruct s as [|c s]; simpl; try lia.
  specialize (IH s). lia.
Qed.

(** [sanitizeSearch] (lines 430-434): whatever the query parameter, the
    result has at most 100 characters, and none of them is [<], [>], a double
    quote or a single quote. *)
Theorem sanitizeSearch_safe (q : option string) :
  (String.length (sanitizeSearch q) <= 100)%nat /\
  forall n c, String.get n (sanitizeSearch q) = Some c ->
    c <> "<"%char /\ c <> ">"%char /\ c <> ascii_of_nat 34 /\ c <> "'"%char.
Proof.
  destruct q as [s|]; simpl.
  - pose proof (substring_0_length 100 s) as L.
    revert L. generalize (String.substring 0 100 s). intros t L.
    enough (String.length ((fix drop (s : string) : string :=
                match s with
                | EmptyString => EmptyString
                | String c r =>
                    if (Ascii.eqb c "<" || Ascii.eqb c ">" || Ascii.eqb c (ascii_of_nat 34) || Ascii.eqb c "'")%char
                    then drop r else String c (drop r)
                end) t) <= String.length t /\ _)%nat as [E1 E2] by (split; [lia|exact E2]).
    clear L. induction t as [|c t IH]; simpl.
    + split; [lia|]. intros n c H. destruct n; discriminate.
    + destruct (Ascii.eqb c "<" || Ascii.eqb c ">" || Ascii.eqb c (ascii_of_nat 34) || Ascii.eqb c "'")%char eqn:E.
      * destruct IH as [IH1 IH2]. split; [lia|exact IH2].
      * destruct IH as [IH1 IH2]. simpl. split; [lia|].
        intros [|n] c' H; simpl in H.
        -- inversion H; subst.
           rewrite !orb_false_iff in E. destruct E as [[[E1 E2] E3] E4].
           repeat split; intro X; subst; discriminate.
        -- exact (IH2 n c' H).
  - split; [lia|]. intros n c H. destruct n; discriminate.
Qed.

(** [GET /announce]: when the query passes [validateQueryParams], the
    listing is served and echoes as [offset] the parsed [offset] (0 when
    absent) and as [limit] the parsed [limit] (50 when absent). *)
Theorem get_announce_echoes_paging (cfg : config) (rs : rooms_t) (q : query_params) (now : Z) :
  validateQueryParams q = [] ->
  exists resp, fst (get_announce cfg rs q now) = GetOk resp /\
    lr_offset resp = match parse_int_opt (q_offset q) with Some o => o | None => 0 end /\
    lr_limit resp = match parse_int_opt (q_limit q) with Some l => l | None => 50 end.
Proof.
  intro V. unfold get_announce. rewrite V. eexists. split; [reflexivity|]. simpl.
  unfold validateQueryParams in V.
  apply app_eq_nil in V as [Vo V]. apply app_eq_nil in V as [Vl _].
  unfold int_or, parse_int_opt. split.
  - destruct (q_offset q) as [s|]; simpl; [|lia].
    destruct (parse_int_string s) as [o|]; simpl in Vo; [|discriminate].
    destruct (o <? 0) eqn:E; [discriminate|]. apply Z.ltb_ge in E.
    destruct (o =? 0) eqn:E0; [apply Z.eqb_eq in E0; lia|lia].
  - destruct (q_limit q) as [s|]; simpl; [|lia].
    destruct (parse_int_string s) as [l|]; simpl in Vl; [|discriminate].
    destruct ((l <? 1) || (200 <? l)) eqn:E; [discriminate|].
    apply orb_false_iff in E as [E1 E2]. apply Z.ltb_ge in E1. apply Z.ltb_ge in E2.
    destruct (l =? 0) eqn:E0; [apply Z.eqb_eq in E0; lia|lia].
Qed.

(** [GET /announce]: a [maxWager] that parses to 0 gives [parseInt(...) || Infinity],
    so the request behaves exactly as if [maxWager] were absent. *)
Theorem get_announce_maxWager_zero (cfg : config) (rs : rooms_t) (q : query_params) (now : Z) (s : string) :
  q_maxWager q = Some s -> parse_int_string s = Some 0 ->
  get_announce cfg rs q now = get_announce cfg rs (with_maxWager q None) now.
Proof.
  intros Hq Hs. destruct q; simpl in Hq; subst.
  unfold get_announce, validateQueryParams, filter_sort, max_wager_of, parse_int_opt, with_maxWager; simpl.
  rewrite Hs. reflexivity.
Qed.









Lemma room_cmp_default s a b :
  s <> "oldest" -> s <> "wager_high" -> s <> "wager_low" ->
  room_cmp s a b = js_sub (Room.createdAt b) (Room.createdAt a).
Proof.
  intros N1 N2 N3. unfold room_cmp.
  destruct (String.eqb s "oldest") eqn:E1; [apply String.eqb_eq in E1; contradiction|].
  destruct (String.eqb s "wager_high") eqn:E2; [apply String.eqb_eq in E2; contradiction|].
  destruct (String.eqb s "wager_low") eqn:E3; [apply String.eqb_eq in E3; contradiction|].
  reflexivity.
Qed.

Lemma js_sub_num a b :
  num_created a -> num_created b ->
  js_sub (Room.createdAt a) (Room.createdAt b) = Some (created_num a - created_num b).
Proof.
  unfold num_created, created_num, js_sub. intros Ha Hb.
  destruct (to_number (Room.createdAt a)); [|contradiction].
  destruct (to_number (Room.createdAt b)); [|contradiction]. reflexivity.
Qed.

Lemma filter_sort_Sorted q rs (R : Room.t -> Room.t -> Prop) :
  Forall num_created (map snd rs) ->
  (forall a b, num_created a -> num_created b ->
     before (room_cmp (str_or (q_sort q) "newest")) b a = true -> R b a) ->
  (forall a b, num_created a -> num_created b ->
     before (room_cmp (str_or (q_sort q) "newest")) b a = false -> R a b) ->
  Sorted R (filter_sort q rs).
Proof.
  intros F H1 H2. unfold filter_sort. cbv zeta.
  apply (stable_sort_Sorted _ num_created R H1 H2).
  repeat match goal with
         | |- Forall _ (if ?b then _ else _) => destruct b
         | |- Forall _ (filter _ _) => apply Forall_filter_sub
         end; exact F.
Qed.

(** [GET /announce]: when every stored [createdAt] is numeric, a listing
    sorted "oldest" is ascending in [createdAt], and one sorted by default
    (absent, "newest" or any other unknown value) is descending. *)
Theorem get_announce_sort_order (cfg : config) (rs : rooms_t) (q : query_params) (now : Z) :
  numeric_createdAt rs = true ->
  match get_announce cfg rs q now with
  | (GetOk resp, _) =>
      (q_sort q = Some "oldest" ->
         Sorted (fun a b => created_num a <= created_num b) (lr_rooms resp)) /\
      ((forall s, q_sort q = Some s -> s <> "oldest" /\ s <> "wager_high" /\ s <> "wager_low") ->
         Sorted (fun a b => created_num b <= created_num a) (lr_rooms resp))
  | (GetRejected _, _) => True
  end.
Proof.
  intro Hn. apply numeric_createdAt_Forall in Hn.
  assert (F : Forall num_created (map snd (sweep_expired cfg now rs))).
  { apply Forall_map. apply Forall_filter_sub. exact Hn. }
  unfold get_announce. destruct (validateQueryParams q) as [|e es]; [|exact I].
  simpl. unfold js_slice. split.
  - intro Hs.
    assert (D : forall a b, room_cmp (str_or (q_sort q) "newest") a b =
                            js_sub (Room.createdAt a) (Room.createdAt b))
      by (intros a b; rewrite Hs; reflexivity).
    apply Sorted_firstn, Sorted_skipn.
    apply filter_sort_Sorted; [exact F| |];
      intros a b Ha Hb; unfold before; rewrite D, (js_sub_num b a Hb Ha);
      intro E; [apply Z.ltb_lt in E|apply Z.ltb_ge in E]; lia.
  - intro Hs.
    assert (D : forall a b, room_cmp (str_or (q_sort q) "newest") a b =
                            js_sub (Room.createdAt b) (Room.createdAt a)).
    { intros a b. destruct (q_sort q) as [s|] eqn:Q.
      - destruct (Hs s eq_refl) as [N1 [N2 N3]]. simpl.
        destruct (String.eqb s "") eqn:E; [reflexivity|]. apply room_cmp_default; auto.
      - reflexivity. }
    apply Sorted_firstn, Sorted_skipn.
    apply filter_sort_Sorted; [exact F| |];
      intros a b Ha Hb; unfold before; rewrite D, (js_sub_num a b Ha Hb);
      intro E; [apply Z.ltb_lt in E|apply Z.ltb_ge in E]; lia.
Qed.


Lemma bump_get k k' m :
  map_get String.eqb k (bump k' m) =
  if String.eqb k' k then Some (match map_get String.eqb k m with Some n => n + 1 | None => 1 end)
  else map_get String.eqb k m.
Proof.
  unfold bump. destruct (String.eqb k' k) eqn:E.
  - apply String.eqb_eq in E. subst. apply (map_get_set_same String.eqb String.eqb_eq).
  - apply (map_get_set_other String.eqb String.eqb_eq).
    intro X. subst. rewrite String.eqb_refl in E. discriminate.
Qed.


Lemma tally_add_S o n :
  tally_add o (S n) = Some (match o with Some v => v | None => 0 end + Z.of_nat (S n)).
Proof. destruct o; unfold tally_add; [reflexivity|]. cbn [Nat.eqb]. f_equal; lia. Qed.

Lemma stats_fold_get k l g s :
  let res := fold_left (fun '(g, s) r =>
        (bump (js_to_string (js_or (Room.gameType r) (JStr "unknown"))) g,
         bump (js_to_string (js_or (Room.status r) (JStr "unknown"))) s)) l (g, s) in
  map_get String.eqb k (fst res) =
    tally_add (map_get String.eqb k g) (length (filter (fun r => String.eqb (game_key r) k) l)) /\
  map_get String.eqb k (snd res) =
    tally_add (map_get String.eqb k s) (length (filter (fun r => String.eqb (status_key r) k) l)).
Proof.
  revert g s. induction l as [|r l IH]; intros g s; simpl.
  - split; [destruct (map_get String.eqb k g)|destruct (map_get String.eqb k s)];
      simpl; f_equal; lia.
  - destruct (IH (bump (game_key r) g) (bump (status_key r) s)) as [IH1 IH2].
    unfold game_key, status_key in *. split.
    + rewrite IH1, bump_get.
      destruct (String.eqb (js_to_string (js_or (Room.gameType r) (JStr "unknown"))) k); simpl;
        [|reflexivity].
      rewrite tally_add_S. destruct (map_get String.eqb k g); f_equal; lia.
    + rewrite IH2, bump_get.
      destruct (String.eqb (js_to_string (js_or (Room.status r) (JStr "unknown"))) k); simpl;
        [|reflexivity].
      rewrite tally_add_S. destruct (map_get String.eqb k s); f_equal; lia.
Qed.

(** [GET /scrape] (lines 751-801): the registry left is the swept one,
    [total] is its size, and each [byStatus] and [byGameType] entry is the
    number of remaining rooms with that status or game type ("unknown" for a
    falsy one), absent when there is none. *)
Theorem scrape_tallies (cfg : config) (rs : rooms_t) (now : Z) :
  let '(s, rs') := scrape cfg rs now in
  rs' = sweep_expired cfg now rs /\ st_total s = rooms_size rs' /\
  forall k, map_get String.eqb k (st_by_status s) = tally status_key k (map snd rs') /\
            map_get String.eqb k (st_by_game_type s) = tally game_key k (map snd rs').
Proof.
  unfold scrape, compute_stats.
  split; [reflexivity|].
  match goal with |- context [fold_left ?f ?l ([], [])] => destruct (fold_left f l ([], [])) as [g s] eqn:E end.
  simpl. split; [unfold rooms_size; rewrite length_map; reflexivity|].
  intro k. destruct (stats_fold_get k (map snd (sweep_expired cfg now rs)) [] []) as [H1 H2].
  cbv zeta in H1, H2. rewrite E in H1, H2. simpl in H1, H2. rewrite H1, H2.
  unfold tally. split; reflexivity.
Qed.


Lemma validateAnnouncement_ok d now ns ns' :
  validateAnnouncement d now ns = ([], ns') -> validate_fields d now = [].
Proof.
  unfold validateAnnouncement. destruct (check_nonce (Data.nonce d) now ns) as [ne ns0].
  intro H. injection H as H1 _. apply app_eq_nil in H1 as [H1 _]. exact H1.
Qed.

(** [POST /announce]: an accepted announce passed the field checks, the
    returned record is the one stored under its [roomId], and its
    [updatedAt] is the request time. *)
Theorem post_announce_stores_room (rs : rooms_t) (ns : nonce_store) (d : Data.t) (now : Z) :
  match post_announce rs ns d now with
  | (PostOk r, rs', _) =>
      validate_fields d now = [] /\ rooms_get (Data.roomId d) rs' = Some r /\ Room.updatedAt r = now
  | (PostRejected _, _, _) => True
  end.
Proof.
  unfold post_announce. destruct (validateAnnouncement d now ns) as [[|e es] ns'] eqn:VA; [|exact I].
  unfold upsert_room. apply validateAnnouncement_ok in VA.
  destruct (rooms_get (Data.roomId d) (enforce_room_limit rs)); simpl;
    (split; [exact VA|split; [apply (map_get_set_same jsval_eqb jsval_eqb_eq)|reflexivity]]).
Qed.

Ltac split_nil H :=
  repeat (apply app_eq_nil in H; let C := fresh "C" in destruct H as [C H]).

Lemma validated_shapes d now :
  validate_fields d now = [] ->
  room_id_ok (Data.roomId d) = true /\
  (truthy (Data.status d) = true -> status_ok (Data.status d) = true) /\
  (Data.public d = JUndef \/ public_ok (Data.public d) = true) /\
  wallet_ok (Data.player1WalletAddress d) = true /\
  name_ok (Data.player1Name d) = true.
Proof.
  intro V. cbv beta zeta delta [validate_fields] in V. split_nil V.
  split; [|split; [|split; [|split]]].
  - clear -C. destruct (Data.roomId d) as [| |b|z|s]; simpl in C; try discriminate;
      try (rewrite orb_true_r in C; discriminate).
    unfold room_id_ok. destruct (String.eqb s "") eqn:E; simpl in C; try discriminate.
    destruct (MAX_ROOM_ID_LENGTH <? slen s) eqn:L; try discriminate.
    destruct (all_chars is_room_id_char s); try discriminate.
    apply Z.ltb_ge in L. apply Z.leb_le in L. rewrite L. reflexivity.
  - clear -C14. intro T. destruct (Data.status d) as [| |[|]|z|s]; simpl in T |- *; try discriminate;
      simpl in C14; rewrite ?T in C14; simpl in C14; try discriminate.
    match type of C14 with err_if (negb ?b) _ = [] => destruct b; [reflexivity|discriminate] end.
  - clear -C15. destruct (Data.public d); simpl in *; auto; discriminate.
  - clear -C2. destruct (Data.player1WalletAddress d) as [| |b|z|s]; simpl in C2; try discriminate;
      try (rewrite orb_true_r in C2; discriminate).
    unfold wallet_ok. destruct (String.eqb s "") eqn:E; simpl in C2; try discriminate.
    destruct (chia_address s); simpl in C2; try discriminate.
    destruct (100 <? slen s) eqn:L; try discriminate.
    apply Z.ltb_ge in L. apply Z.leb_le in L. rewrite L. reflexivity.
  - clear -C1. destruct (Data.player1Name d) as [| |b|z|s]; simpl in C1; try discriminate;
      try (rewrite orb_true_r in C1; discriminate).
    unfold name_ok. destruct (String.eqb s "") eqn:E; simpl in C1; try discriminate.
    destruct (MAX_NAME_LENGTH <? slen s) eqn:L; try discriminate.
    apply Z.ltb_ge in L. apply Z.leb_le in L. rewrite L. reflexivity.
Qed.

Lemma wallet_ok_truthy v : wallet_ok v = true -> truthy v = true.
Proof.
  destruct v as [| |b|z|s]; simpl; try discriminate.
  destruct s; [simpl; discriminate|reflexivity].
Qed.

Lemma name_ok_truthy v : name_ok v = true -> truthy v = true.
Proof.
  destruct v as [| |b|z|s]; simpl; try discriminate.
  intro H. apply andb_true_iff in H as [H _]. exact H.
Qed.

Lemma new_room_valid d now : validate_fields d now = [] -> room_valid (new_room d now) = true.
Proof.
  intro V. apply validated_shapes in V as [Hid [Hst [Hpub [Hw Hn]]]].
  unfold room_valid, new_room; simpl. rewrite Hid, Hw, Hn.
  unfold js_or. destruct (truthy (Data.status d)) eqn:T; [rewrite (Hst eq_refl)|]; simpl;
  (destruct Hpub as [E|E]; [rewrite E; reflexivity|]);
  destruct (Data.public d); try discriminate; reflexivity.
Qed.

Lemma update_room_valid r d now :
  validate_fields d now = [] -> room_valid r = true -> room_valid (update_room r d now) = true.
Proof.
  intros V R. apply validated_shapes in V as [Hid [Hst [Hpub [Hw Hn]]]].
  unfold room_valid in *. simpl.
  apply andb_true_iff in R as [R Rn]. apply andb_true_iff in R as [R Rw].
  apply andb_true_iff in R as [R Rp]. apply andb_true_iff in R as [Rid Rs].
  rewrite Rid. unfold if_truthy. rewrite (wallet_ok_truthy _ Hw), (name_ok_truthy _ Hn), Hw, Hn.
  unfold js_or, unless_undef. destruct (truthy (Data.status d)) eqn:T; [rewrite (Hst eq_refl)|rewrite Rs]; simpl;
  (destruct Hpub as [E|E]; [rewrite E; simpl; rewrite Rp; reflexivity|]);
  destruct (Data.public d); try discriminate; reflexivity.
Qed.


Lemma upsert_valid rs d now :
  validate_fields d now = [] -> rooms_valid rs -> rooms_valid (fst (upsert_room rs d now)).
Proof.
  intros V H. unfold upsert_room.
  pose proof (Forall_enforce_room_limit (fun r => room_valid r = true) rs H) as H1.
  destruct (rooms_get (Data.roomId d) (enforce_room_limit rs)) as [r|] eqn:G; simpl;
    apply (Forall_rooms_set (fun r => room_valid r = true)); auto.
  - apply update_room_valid; [exact V|].
    apply (map_get_In jsval_eqb jsval_eqb_eq) in G.
    rewrite Forall_forall in H1. exact (H1 _ G).
  - apply new_room_valid. exact V.
Qed.

(** Every event keeps this invariant: each stored room has a valid
    [roomId], a listed [status], a boolean [public], a Chia wallet address
    of at most 100 characters and a non-empty name of at most
    [MAX_NAME_LENGTH] characters. *)
Theorem step_keeps_rooms_valid (cfg : config) (st : server) (ev : event) (now : Z) :
  forallb (fun p => room_valid (snd p)) (rooms st) = true ->
  forallb (fun p => room_valid (snd p)) (rooms (snd (step cfg st ev now))) = true.
Proof.
  intro Hb.
  assert (H : rooms_valid (rooms st)).
  { apply Forall_forall. intros p Hp. rewrite forallb_forall in Hb. auto. }
  enough (rooms_valid (rooms (snd (step cfg st ev now)))) as G.
  { apply forallb_forall. intros p Hp. unfold rooms_valid in G. rewrite Forall_forall in G. auto. }
  clear Hb. unfold rooms_valid in *.
  destruct ev as [r| | | |]; simpl; try exact H.
  - destruct (rateLimit cfg (request_ip r) (request_is_post r) now (limits st)) as [o lim].
    destruct o; simpl; try exact H.
    destruct r as [ip q|ip d|ip]; simpl.
    + unfold get_announce. destruct (validateQueryParams q); simpl;
        [apply (Forall_sweep (fun r => room_valid r = true)); exact H|exact H].
    + unfold post_announce. destruct (validateAnnouncement d now (nonces st)) as [[|e es] ns'] eqn:VA.
      * apply validateAnnouncement_ok in VA.
        pose proof (upsert_valid (rooms st) d now VA H) as U.
        destruct (upsert_room (rooms st) d now). exact U.
      * exact H.
    + apply (Forall_sweep (fun r => room_valid r = true)). exact H.
  - apply (Forall_room_cleanup_tick (fun r => room_valid r = true)). exact H.
Qed.


Lemma map_delete_if_has (ip : string) {V} (m : list (string * V)) :
  (if map_has String.eqb ip m then map_delete String.eqb ip m else m) = map_delete String.eqb ip m.
Proof.
  destruct (map_has String.eqb ip m) eqn:H; [reflexivity|].
  symmetry. apply (map_delete_not_in String.eqb String.eqb_eq).
  intro Hin. apply (map_has_In String.eqb String.eqb_eq) in Hin. congruence.
Qed.

Lemma filter_twice {A} (f g : A -> bool) l :
  filter f (filter g l) = filter (fun x => g x && f x) l.
Proof.
  induction l as [|a l IH]; simpl; [reflexivity|].
  destruct (g a); simpl; [destruct (f a); simpl; rewrite IH; reflexivity|exact IH].
Qed.

Lemma clear_fold ips lim :
  fold_left (fun l ip =>
      let bl := if map_has String.eqb ip (blockedIPs l)
                then map_delete String.eqb ip (blockedIPs l) else blockedIPs l in
      let m := if map_has String.eqb ip (rateLimitMap l)
               then map_delete String.eqb ip (rateLimitMap l) else rateLimitMap l in
      mk_limiter m bl) ips lim =
  mk_limiter (filter (fun '(k, _) => negb (existsb (String.eqb k) ips)) (rateLimitMap lim))
             (filter (fun '(k, _) => negb (existsb (String.eqb k) ips)) (blockedIPs lim)).
Proof.
  revert lim. induction ips as [|ip ips IH]; intro lim; simpl.
  - destruct lim as [m bl]; simpl. f_equal.
    + induction m as [|[k v] m IHm]; simpl; [reflexivity|]. f_equal; exact IHm.
    + induction bl as [|[k v] bl IHb]; simpl; [reflexivity|]. f_equal; exact IHb.
  - rewrite IH. simpl. rewrite !map_delete_if_has. unfold map_delete.
    rewrite !filter_twice. f_equal; apply filter_ext; intros [k v];
    rewrite negb_orb; reflexivity.
Qed.

Lemma get_filter_keys {V} (f : string -> bool) ip (m : list (string * V)) :
  map_get String.eqb ip (filter (fun '(k, _) => f k) m) =
  if f ip then map_get String.eqb ip m else None.
Proof.
  induction m as [|[k v] m IH]; simpl; [destruct (f ip); reflexivity|].
  destruct (f k) eqn:F; simpl.
  - destruct (String.eqb k ip) eqn:E; [|exact IH].
    apply String.eqb_eq in E; subst k. rewrite F. reflexivity.
  - rewrite IH. destruct (String.eqb k ip) eqn:E; [|reflexivity].
    apply String.eqb_eq in E; subst k. rewrite F. reflexivity.
Qed.

(** [clearLocalhostBlocks()] (lines 848-866) leaves no block for a
    localhost address, removes the block and rate-limit entry of each
    localhost address, and leaves the entries of every other address as
    they were. *)
Theorem clearLocalhostBlocks_spec (lim : limiter) :
  no_localhost_blocks (clearLocalhostBlocks lim) = true /\
  forall ip,
    map_get String.eqb ip (blockedIPs (clearLocalhostBlocks lim)) =
      (if is_localhost ip then None else map_get String.eqb ip (blockedIPs lim)) /\
    map_get String.eqb ip (rateLimitMap (clearLocalhostBlocks lim)) =
      (if is_localhost ip then None else map_get String.eqb ip (rateLimitMap lim)).
Proof.
  unfold clearLocalhostBlocks. rewrite clear_fold. simpl. split.
  - unfold no_localhost_blocks. simpl. apply forallb_forall. intros [k v] Hin.
    apply filter_In in Hin as [_ H]. exact H.
  - intro ip.
    rewrite (get_filter_keys (fun k => negb (existsb (String.eqb k) localhost_ips))).
    rewrite (get_filter_keys (fun k => negb (existsb (String.eqb k) localhost_ips))).
    unfold is_localhost. destruct (existsb (String.eqb ip) localhost_ips); split; reflexivity.
Qed.

(** [blockIP] then [isIPBlocked] for a non-localhost address: the address
    is reported blocked with the given reason until [BLOCK_DURATION] after
    the block, and from then on it is let through and its entry deleted. *)
Theorem blockIP_isIPBlocked (cfg : config) (ip why : string) (now t : Z)
  (bl : list (string * block_info)) :
  is_localhost ip = false ->
  isIPBlocked ip t (blockIP cfg ip why now bl) =
  if t <? now + BLOCK_DURATION cfg
  then (Some why, blockIP cfg ip why now bl)
  else (None, map_delete String.eqb ip bl).
Proof.
  intro L. unfold blockIP. rewrite L. unfold isIPBlocked, BLOCKED_IPS. simpl.
  rewrite (map_get_set_same String.eqb String.eqb_eq). simpl.
  destruct (t <? now + BLOCK_DURATION cfg); [reflexivity|].
  f_equal. unfold map_set. destruct (map_has String.eqb ip bl) eqn:H.
  - unfold map_delete. clear H. induction bl as [|[k v] bl IH]; simpl; [reflexivity|].
    destruct (String.eqb k ip) eqn:E; simpl; rewrite ?E; simpl; rewrite ?IH; reflexivity.
  - unfold map_delete. rewrite filter_app. simpl. rewrite String.eqb_refl. simpl.
    rewrite app_nil_r. reflexivity.
Qed.


Lemma nlb_delete ip bl : nlb bl = true -> nlb (map_delete String.eqb ip bl) = true.
Proof.
  unfold nlb, map_delete. intro H. apply forallb_forall. intros p Hp.
  apply filter_In in Hp as [Hp _]. rewrite forallb_forall in H. auto.
Qed.

Lemma nlb_blockIP cfg ip why now bl : nlb bl = true -> nlb (blockIP cfg ip why now bl) = true.
Proof.
  unfold blockIP. destruct (is_localhost ip) eqn:L; [auto|].
  unfold nlb, map_set. intro H. destruct (map_has String.eqb ip bl).
  - induction bl as [|[k v] bl IH]; simpl in *; [reflexivity|].
    apply andb_true_iff in H as [H1 H2].
    destruct (String.eqb k ip); simpl; rewrite H1, (IH H2); reflexivity.
  - rewrite forallb_app, H. simpl. rewrite L. reflexivity.
Qed.

Lemma nlb_isIPBlocked ip now bl : nlb bl = true -> nlb (snd (isIPBlocked ip now bl)) = true.
Proof.
  intro H. unfold isIPBlocked, BLOCKED_IPS. simpl.
  destruct (map_get String.eqb ip bl) as [b|]; [|exact H].
  destruct (now <? blockedUntil b); [exact H|apply nlb_delete; exact H].
Qed.

Lemma nlb_count_request cfg ip post now lim :
  nlb (blockedIPs lim) = true -> nlb (blockedIPs (snd (count_request cfg ip post now lim))) = true.
Proof.
  intro H. unfold count_request.
  match goal with |- context [let '(_, _) := ?x in _] => destruct x as [data m1] end.
  destruct post;
  repeat match goal with
         | |- context [if ?c then _ else _] => destruct c
         end; simpl; auto using nlb_blockIP.
Qed.

Lemma nlb_rateLimit cfg ip post now lim :
  nlb (blockedIPs lim) = true -> nlb (blockedIPs (snd (rateLimit cfg ip post now lim))) = true.
Proof.
  intro H. unfold rateLimit. destruct (DISABLE_RATE_LIMIT cfg); [exact H|].
  pose proof (nlb_isIPBlocked ip now _ H) as H1.
  destruct (isIPBlocked ip now (blockedIPs lim)) as [blk bl]. simpl in H1.
  destruct blk; [exact H1|]. destruct (is_localhost ip); [exact H1|].
  apply nlb_count_request. exact H1.
Qed.

Lemma handle_limits cfg st r now : limits (snd (handle cfg st r now)) = limits st.
Proof.
  destruct r; simpl.
  - destruct (get_announce cfg (rooms st) q now); reflexivity.
  - destruct (post_announce (rooms st) (nonces st) d now) as [[? ?] ?]; reflexivity.
  - destruct (scrape cfg (rooms st) now); reflexivity.
Qed.

(** No event puts a localhost address into [blockedIPs]: the absence of
    localhost blocks, which [clearLocalhostBlocks] establishes, is kept. *)
Theorem step_keeps_no_localhost_blocks (cfg : config) (st : server) (ev : event) (now : Z) :
  no_localhost_blocks (limits st) = true ->
  no_localhost_blocks (limits (snd (step cfg st ev now))) = true.
Proof.
  unfold no_localhost_blocks. fold (nlb (blockedIPs (limits st))).
  intro H. destruct ev as [r| | | |]; simpl; try exact H.
  - pose proof (nlb_rateLimit cfg (request_ip r) (request_is_post r) now _ H) as H1.
    destruct (rateLimit cfg (request_ip r) (request_is_post r) now (limits st)) as [o lim].
    simpl in H1. destruct o; simpl; try exact H1.
    pose proof (handle_limits cfg (mk_server (rooms st) (nonces st) lim) r now) as E.
    destruct (handle cfg (mk_server (rooms st) (nonces st) lim) r now) as [res st2].
    simpl in *. rewrite E. exact H1.
  - unfold ip_block_cleanup_tick. apply forallb_forall. intros [k v] Hp.
    apply filter_In in Hp as [_ Hp]. exact Hp.
Qed.

Lemma nlb_get_localhost ip bl :
  nlb bl = true -> is_localhost ip = true -> map_get String.eqb ip bl = None.
Proof.
  intros H L. induction bl as [|[k v] bl IH]; simpl in *; [reflexivity|].
  apply andb_true_iff in H as [H1 H2]. destruct (String.eqb k ip) eqn:E; [|auto].
  apply String.eqb_eq in E. subst k. rewrite L in H1. discriminate.
Qed.

(** With no localhost block in the table, a request from a localhost
    address always passes [rateLimit] and leaves both tables unchanged. *)
Theorem rateLimit_localhost_passes (cfg : config) (ip : string) (post : bool) (now : Z)
  (lim : limiter) :
  no_localhost_blocks lim = true -> is_localhost ip = true ->
  rateLimit cfg ip post now lim = (RLNext, lim).
Proof.
  intros H L. unfold rateLimit. destruct (DISABLE_RATE_LIMIT cfg); [reflexivity|].
  unfold isIPBlocked, BLOCKED_IPS. simpl. rewrite (nlb_get_localhost ip _ H L), L.
  destruct lim; reflexivity.
Qed.


Lemma firstn_NoDup_keys {A B} n (l : list (A * B)) :
  NoDup (map fst l) -> NoDup (map fst (firstn n l)).
Proof.
  intro H. rewrite <- (firstn_skipn n l) in H. rewrite map_app in H.
  apply NoDup_app_remove_r in H. exact H.
Qed.

Lemma enforce_rl_limit_ok m :
  NoDup (map fst m) ->
  NoDup (map fst (enforce_rl_limit m)) /\
  (length (enforce_rl_limit m) <= Z.to_nat MAX_RATE_LIMIT_ENTRIES)%nat.
Proof.
  intro H. unfold enforce_rl_limit.
  destruct (MAX_RATE_LIMIT_ENTRIES <? Z.of_nat (length m)) eqn:E.
  - apply Z.ltb_lt in E.
    set (sorted := stable_sort (fun a b => Some (resetTime (snd a) - resetTime (snd b))) m).
    assert (P : Permutation sorted m) by apply stable_sort_perm.
    set (n := Z.to_nat (Z.of_nat (length m) - MAX_RATE_LIMIT_ENTRIES)).
    assert (Ln : length (firstn n sorted) = n).
    { rewrite length_firstn, (Permutation_length P). unfold n, MAX_RATE_LIMIT_ENTRIES in *. lia. }
    destruct (fold_delete_length String.eqb String.eqb_eq (firstn n sorted) m) as [L N].
    + exact H.
    + apply firstn_NoDup_keys. apply (Permutation_NoDup (Permutation_map fst (Permutation_sym P))). exact H.
    + intros x Hx. apply in_map_iff in Hx as [p [Hp Hin]]. subst x.
      apply in_map. apply (Permutation_in _ P). apply (In_firstn_sub n). exact Hin.
    + split; [exact N|]. rewrite L, Ln. unfold n, MAX_RATE_LIMIT_ENTRIES in *. lia.
  - split; [exact H|]. apply Z.ltb_ge in E. unfold MAX_RATE_LIMIT_ENTRIES in *. lia.
Qed.

Lemma count_request_rl_ok cfg ip post now lim :
  NoDup (map fst (rateLimitMap lim)) -> rl_ok (rateLimitMap (snd (count_request cfg ip post now lim))).
Proof.
  intro H. unfold count_request.
  set (m := rateLimitMap lim) in *.
  match goal with |- context [let '(_, _) := ?x in _] => destruct x as [data m1] eqn:E end.
  assert (N : NoDup (map fst m1)).
  { destruct (map_get String.eqb ip m) as [e|].
    - destruct (resetTime e <? now); injection E as _ <-;
        [apply (map_set_NoDup String.eqb String.eqb_eq)|]; exact H.
    - injection E as _ <-. apply (map_set_NoDup String.eqb String.eqb_eq). exact H. }
  destruct (enforce_rl_limit_ok m1 N) as [N2 L2].
  assert (S : forall e, rl_ok (if map_has String.eqb ip (enforce_rl_limit m1)
                               then map_set String.eqb ip e (enforce_rl_limit m1)
                               else enforce_rl_limit m1)).
  { intro e. destruct (map_has String.eqb ip (enforce_rl_limit m1)) eqn:Hh; split.
    - apply (map_set_NoDup String.eqb String.eqb_eq). exact N2.
    - rewrite (map_set_length_present String.eqb); auto.
    - exact N2.
    - exact L2. }
  destruct post;
  repeat match goal with
         | |- context [if ?c then _ else _] =>
             match c with map_has _ _ _ => fail 1 | _ => destruct c end
         end; simpl; apply S.
Qed.

Lemma rl_cleanup_keys now m : forall l acc,
  incl l m -> NoDup (map fst acc) -> incl (map fst acc) (map fst m) ->
  let r := fold_left (fun acc '(ip, e) =>
      if resetTime e <? now then
        if 0 <? violations e
        then map_set String.eqb ip
               (mk_rl (count e) (announceCount e) (resetTime e) (Z.max 0 (violations e - 1))) acc
        else map_delete String.eqb ip acc
      else acc) l acc in
  NoDup (map fst r) /\ incl (map fst r) (map fst m).
Proof.
  induction l as [|[k e] l IH]; intros acc Hl Hn Hi; simpl; [split; assumption|].
  apply IH.
  - intros x Hx. apply Hl. right. exact Hx.
  - destruct (resetTime e <? now); [destruct (0 <? violations e)|]; [| |exact Hn].
    + apply (map_set_NoDup String.eqb String.eqb_eq). exact Hn.
    + apply (map_delete_NoDup String.eqb). exact Hn.
  - destruct (resetTime e <? now); [destruct (0 <? violations e)|]; auto.
    + apply (map_set_keys_incl String.eqb); [exact Hi|].
      apply (in_map fst m (k, e)). apply Hl. left. reflexivity.
    + intros x Hx. apply Hi. apply (map_delete_keys_incl String.eqb String.eqb_eq k acc). exact Hx.
Qed.

Lemma rl_ok_bounded lim : rl_bounded lim = true <-> rl_ok (rateLimitMap lim).
Proof.
  unfold rl_bounded, rl_ok. rewrite andb_true_iff, Z.leb_le. split.
  - intros [N L]. split; [apply nodup_strs_NoDup; exact N|unfold MAX_RATE_LIMIT_ENTRIES in *; lia].
  - intros [N L]. split; [apply NoDup_nodup_strs; exact N|unfold MAX_RATE_LIMIT_ENTRIES in *; lia].
Qed.

(** Every event keeps the rate-limit table with distinct keys and at most
    [MAX_RATE_LIMIT_ENTRIES] entries. *)
Theorem step_keeps_rl_bounded (cfg : config) (st : server) (ev : event) (now : Z) :
  rl_bounded (limits st) = true -> rl_bounded (limits (snd (step cfg st ev now))) = true.
Proof.
  rewrite !rl_ok_bounded. intro H.
  destruct ev as [r| | | |]; simpl; try exact H.
  - assert (H1 : rl_ok (rateLimitMap (snd (rateLimit cfg (request_ip r) (request_is_post r) now (limits st))))).
    { unfold rateLimit. destruct (DISABLE_RATE_LIMIT cfg); [exact H|].
      destruct (isIPBlocked (request_ip r) now (blockedIPs (limits st))) as [blk bl].
      destruct blk; [exact H|]. destruct (is_localhost (request_ip r)); [exact H|].
      apply count_request_rl_ok. exact (proj1 H). }
    destruct (rateLimit cfg (request_ip r) (request_is_post r) now (limits st)) as [o lim].
    simpl in H1. destruct o; simpl; try exact H1.
    pose proof (handle_limits cfg (mk_server (rooms st) (nonces st) lim) r now) as E.
    destruct (handle cfg (mk_server (rooms st) (nonces st) lim) r now) as [res st2].
    simpl in *. rewrite E. exact H1.
  - destruct H as [N L].
    destruct (rl_cleanup_keys now (rateLimitMap (limits st)) (rateLimitMap (limits st))
                (rateLimitMap (limits st))) as [N' I']; auto using incl_refl.
    split; [exact N'|]. unfold rate_limit_cleanup_tick.
    pose proof (NoDup_incl_length N' I') as Le. rewrite !length_map in Le. lia.
Qed.


Lemma map_get_NoDup_In {V} k (v : V) (m : list (string * V)) :
  NoDup (map fst m) -> In (k, v) m -> map_get String.eqb k m = Some v.
Proof.
  induction m as [|[a b] m IH]; simpl; [tauto|]. intros N [E|Hin]; inversion N; subst.
  - injection E as -> ->. rewrite String.eqb_refl. reflexivity.
  - destruct (String.eqb a k) eqn:E; [|auto].
    apply String.eqb_eq in E. subst a. exfalso. apply H1. apply (in_map fst _ (k, v)). exact Hin.
Qed.

Lemma rl_cleanup_get now : forall l acc,
  NoDup (map fst l) -> (forall k e, In (k, e) l -> map_get String.eqb k acc = Some e) ->
  forall ip,
  map_get String.eqb ip (fold_left (fun acc '(ip, e) =>
      if resetTime e <? now then
        if 0 <? violations e
        then map_set String.eqb ip
               (mk_rl (count e) (announceCount e) (resetTime e) (Z.max 0 (violations e - 1))) acc
        else map_delete String.eqb ip acc
      else acc) l acc) =
  match map_get String.eqb ip l with Some e => rl_decay now e | None => map_get String.eqb ip acc end.
Proof.
  induction l as [|[k e] l IH]; intros acc N H ip; simpl; [reflexivity|].
  inversion N as [|? ? Hk N']; subst.
  set (acc' := if resetTime e <? now then _ else _).
  assert (Oth : forall k2, k2 <> k -> map_get String.eqb k2 acc' = map_get String.eqb k2 acc).
  { intros k2 Ne. unfold acc'. destruct (resetTime e <? now); [destruct (0 <? violations e)|]; [| |reflexivity].
    - apply (map_get_set_other String.eqb String.eqb_eq). congruence.
    - apply (map_get_delete_other String.eqb String.eqb_eq). exact Ne. }
  rewrite IH.
  - destruct (String.eqb k ip) eqn:E.
    + apply String.eqb_eq in E. subst ip.
      replace (map_get String.eqb k l) with (@None rl_entry).
      2:{ symmetry. apply map_get_None. destruct (map_has String.eqb k l) eqn:Hh; [|reflexivity].
          exfalso. apply Hk. apply (map_has_In String.eqb String.eqb_eq). exact Hh. }
      unfold acc', rl_decay. destruct (resetTime e <? now); [destruct (0 <? violations e)|].
      * apply (map_get_set_same String.eqb String.eqb_eq).
      * apply (map_get_delete_same String.eqb String.eqb_eq).
      * apply H. left. reflexivity.
    + destruct (map_get String.eqb ip l); [reflexivity|].
      apply Oth. intro Ei. subst ip. rewrite String.eqb_refl in E. discriminate.
  - exact N'.
  - intros k2 e2 Hin. rewrite Oth.
    + apply H. right. exact Hin.
    + intro Ei. subst k2. apply Hk. apply (in_map fst _ (k, e2)). exact Hin.
Qed.

(** The rate limit cleanup interval (lines 911-923), for a table with
    distinct keys: an expired entry with violations loses one violation,
    an expired entry without violations is deleted, a live entry is kept,
    and no entry is created. *)
Theorem rate_limit_cleanup_tick_get (now : Z) (m : list (string * rl_entry)) (ip : string) :
  nodup_strs (map fst m) = true ->
  map_get String.eqb ip (rate_limit_cleanup_tick now m) =
  match map_get String.eqb ip m with
  | Some e =>
      if resetTime e <? now then
        if 0 <? violations e
        then Some (mk_rl (count e) (announceCount e) (resetTime e) (violations e - 1))
        else None
      else Some e
  | None => None
  end.
Proof.
  intro N. apply nodup_strs_NoDup in N. unfold rate_limit_cleanup_tick.
  rewrite (rl_cleanup_get now m m N).
  - destruct (map_get String.eqb ip m) as [e|]; [|reflexivity].
    unfold rl_decay. destruct (resetTime e <? now); [|reflexivity].
    destruct (0 <? violations e) eqn:V; [|reflexivity].
    apply Z.ltb_lt in V. do 2 f_equal. lia.
  - intros k e Hin. apply map_get_NoDup_In; assumption.
Qed.

Lemma set_has_delete x l : set_has x (set_delete x l) = false.
Proof.
  unfold set_has, set_delete. induction l as [|y l IH]; simpl; [reflexivity|].
  destruct (jsval_eqb y x) eqn:E; simpl; [exact IH|].
  rewrite IH, orb_false_r. destruct (jsval_eqb x y) eqn:E2; [|reflexivity].
  apply jsval_eqb_eq in E2. subst y. rewrite jsval_eqb_refl in E. discriminate.
Qed.

(** A truthy nonce recorded by validation at [now] is gone from
    [usedNonces] once its timer fires at [now + NONCE_CLEANUP_INTERVAL] or
    later, so the same nonce passes the replay check again. *)
Theorem nonce_timer_releases (n : jsval) (now t : Z) (ns : nonce_store) :
  truthy n = true -> now + NONCE_CLEANUP_INTERVAL <= t ->
  let ns' := fire_nonce_timers t (snd (check_nonce n now ns)) in
  set_has n (usedNonces ns') = false /\ fst (check_nonce n t ns') = [].
Proof.
  intros T Le. cbv zeta.
  assert (H : set_has n (usedNonces (fire_nonce_timers t (snd (check_nonce n now ns)))) = false).
  { unfold check_nonce. rewrite T.
    match goal with |- context [let '(_, _) := ?x in _] => destruct x as [errs used'] end.
    unfold fire_nonce_timers. simpl. rewrite filter_app. simpl.
    replace (now + NONCE_CLEANUP_INTERVAL <=? t) with true by (symmetry; apply Z.leb_le; exact Le).
    rewrite fold_left_app. simpl. apply set_has_delete. }
  split; [exact H|].
  unfold check_nonce at 1. rewrite T, H.
  destruct (MAX_NONCES <=? _); reflexivity.
Qed.

Lemma sweep_NoDup cfg now rs : NoDup (map fst rs) -> NoDup (map fst (sweep_expired cfg now rs)).
Proof.
  unfold sweep_expired. induction rs as [|[k r] rs IH]; simpl; intro H; [constructor|].
  inversion H; subst. destruct (negb (room_expired cfg now r)); simpl; [|auto].
  constructor; [|auto]. intro Hin. apply in_map_iff in Hin as [[k' r'] [E Hin]]. simpl in E. subst k'.
  apply filter_In in Hin as [Hin _]. apply H2. apply (in_map fst _ (k, r')). exact Hin.
Qed.

(** The room cleanup interval (lines 874-907), for a registry with
    distinct keys: after the sweep it removes just enough rooms to leave
    [min(size, MAX_ROOMS)] of them. *)
Theorem room_cleanup_tick_size (cfg : config) (now : Z) (rs : rooms_t) :
  nodup_keys (map fst rs) = true ->
  rooms_size (room_cleanup_tick cfg now rs) =
  Z.min (rooms_size (sweep_expired cfg now rs)) MAX_ROOMS.
Proof.
  intro N. apply nodup_keys_NoDup in N. apply (sweep_NoDup cfg now) in N.
  unfold room_cleanup_tick. set (rs1 := sweep_expired cfg now rs) in *.
  destruct (MAX_ROOMS <? rooms_size rs1) eqn:E.
  - apply Z.ltb_lt in E.
    assert (P : Permutation (stable_sort by_createdAt rs1) rs1) by apply stable_sort_perm.
    set (n := Z.to_nat (rooms_size rs1 - MAX_ROOMS)).
    assert (Ln : length (firstn n (stable_sort by_createdAt rs1)) = n).
    { rewrite length_firstn, (Permutation_length P). unfold n, rooms_size, MAX_ROOMS in *. lia. }
    destruct (fold_delete_length jsval_eqb jsval_eqb_eq (firstn n (stable_sort by_createdAt rs1)) rs1)
      as [L _].
    + exact N.
    + apply firstn_NoDup_keys. apply (Permutation_NoDup (Permutation_map fst (Permutation_sym P))). exact N.
    + intros x Hx. apply in_map_iff in Hx as [p [Hp Hin]]. subst x.
      apply in_map. apply (Permutation_in _ P). apply (In_firstn_sub n). exact Hin.
    + assert (L' : length (fold_left (fun acc '(k, _) => rooms_delete k acc)
                     (firstn n (stable_sort by_createdAt rs1)) rs1) = (length rs1 - n)%nat)
        by (rewrite Ln in L; exact L).
      unfold rooms_size at 1. rewrite L'.
      unfold n, rooms_size, MAX_ROOMS in *. lia.
  - apply Z.ltb_ge in E. lia.
Qed.

(** ** Counting one client among others *)
Lemma fold_delete_get ip : forall (l m : list (string * rl_entry)),
  map_get String.eqb ip (fold_left (fun acc '(k, _) => map_delete String.eqb k acc) l m) =
    map_get String.eqb ip m \/
  map_get String.eqb ip (fold_left (fun acc '(k, _) => map_delete String.eqb k acc) l m) = None.
Proof.
  induction l as [|[k v] l IH]; intro m; simpl; [left; reflexivity|].
  destruct (IH (map_delete String.eqb k m)) as [E|E]; rewrite E; [|right; reflexivity].
  destruct (String.eqb_spec k ip) as [->|N].
  - right. apply (map_get_delete_same String.eqb String.eqb_eq).
  - left. apply (map_get_delete_other String.eqb String.eqb_eq). congruence.
Qed.

Lemma enforce_rl_limit_get ip m :
  map_get String.eqb ip (enforce_rl_limit m) = map_get String.eqb ip m \/
  map_get String.eqb ip (enforce_rl_limit m) = None.
Proof.
  unfold enforce_rl_limit. destruct (_ <? _); [apply fold_delete_get|left; reflexivity].
Qed.

Lemma blockIP_get_other cfg ip ip' why now bl :
  ip' <> ip -> map_get String.eqb ip (blockIP cfg ip' why now bl) = map_get String.eqb ip bl.
Proof.
  intro N. unfold blockIP. destruct (is_localhost ip'); [reflexivity|].
  apply (map_get_set_other String.eqb String.eqb_eq). congruence.
Qed.

Lemma count_request_other cfg ip ip' post now lim :
  ip' <> ip ->
  map_get String.eqb ip (blockedIPs (snd (count_request cfg ip' post now lim))) =
    map_get String.eqb ip (blockedIPs lim) /\
  (map_get String.eqb ip (rateLimitMap (snd (count_request cfg ip' post now lim))) =
     map_get String.eqb ip (rateLimitMap lim) \/
   map_get String.eqb ip (rateLimitMap (snd (count_request cfg ip' post now lim))) = None).
Proof.
  intro N. unfold count_request.
  set (m := rateLimitMap lim).
  match goal with |- context [let '(_, _) := ?x in _] => destruct x as [data m1] eqn:E end.
  assert (G1 : map_get String.eqb ip m1 = map_get String.eqb ip m).
  { destruct (map_get String.eqb ip' m) as [e|].
    - destruct (resetTime e <? now); injection E as _ <-; [|reflexivity].
      apply (map_get_set_other String.eqb String.eqb_eq). congruence.
    - injection E as _ <-. apply (map_get_set_other String.eqb String.eqb_eq). congruence. }
  assert (G2 := enforce_rl_limit_get ip m1). rewrite G1 in G2.
  assert (S : forall e, map_get String.eqb ip
                (if map_has String.eqb ip' (enforce_rl_limit m1)
                 then map_set String.eqb ip' e (enforce_rl_limit m1) else enforce_rl_limit m1) =
              map_get String.eqb ip (enforce_rl_limit m1)).
  { intro e. destruct (map_has String.eqb ip' (enforce_rl_limit m1)); [|reflexivity].
    apply (map_get_set_other String.eqb String.eqb_eq). congruence. }
  destruct post;
  repeat match goal with
         | |- context [if ?c then _ else _] =>
             match c with map_has _ _ _ => fail 1 | _ => destruct c end
         end; simpl; rewrite S; rewrite ?blockIP_get_other by exact N; split; auto.
Qed.

(** The identity's own request against its live entry. *)
Lemma rl_own_step cfg ip post t lim c R :
  DISABLE_RATE_LIMIT cfg = false -> is_localhost ip = false ->
  map_get String.eqb ip (blockedIPs lim) = None ->
  map_get String.eqb ip (rateLimitMap lim) = Some (entry_of post c R) ->
  t <= R ->
  (c < rl_threshold cfg post ->
     fst (rateLimit cfg ip post t lim) = RLNext /\
     map_get String.eqb ip (blockedIPs (snd (rateLimit cfg ip post t lim))) = None /\
     (map_get String.eqb ip (rateLimitMap (snd (rateLimit cfg ip post t lim))) =
        Some (entry_of post (c + 1) R) \/
      map_get String.eqb ip (rateLimitMap (snd (rateLimit cfg ip post t lim))) = None)) /\
  (rl_threshold cfg post <= c ->
     fst (rateLimit cfg ip post t lim) = RLLimited post (ceil_div_1000 (R - t))).
Proof.
  intros Hd Hl Hb Hg Ht. destruct lim as [m bl]; simpl in Hb, Hg.
  unfold rateLimit. rewrite Hd. cbn [blockedIPs rateLimitMap].
  rewrite (isIPBlocked_free ip t bl Hb). rewrite Hl.
  unfold count_request. simpl. rewrite Hg.
  assert (E : (resetTime (entry_of post c R) <? t) = false)
    by (destruct post; simpl; apply Z.ltb_ge; lia).
  rewrite E.
  assert (S : forall e, map_get String.eqb ip
                (if map_has String.eqb ip (enforce_rl_limit m)
                 then map_set String.eqb ip e (enforce_rl_limit m) else enforce_rl_limit m) = Some e \/
              map_get String.eqb ip
                (if map_has String.eqb ip (enforce_rl_limit m)
                 then map_set String.eqb ip e (enforce_rl_limit m) else enforce_rl_limit m) = None).
  { intro e. destruct (map_has String.eqb ip (enforce_rl_limit m)) eqn:Hh.
    - left. apply (map_get_set_same String.eqb String.eqb_eq).
    - right. apply map_get_None. exact Hh. }
  unfold rl_threshold. destruct post; simpl.
  - split.
    + intro Hc. destruct (RATE_LIMIT_MAX_ANNOUNCES cfg <? c + 1) eqn:L;
        [apply Z.ltb_lt in L; lia|].
      simpl. split; [reflexivity|]. split; [exact Hb|]. apply S.
    + intro Hc. destruct (RATE_LIMIT_MAX_ANNOUNCES cfg <? c + 1) eqn:L;
        [reflexivity|apply Z.ltb_ge in L; lia].
  - split.
    + intro Hc. destruct (RATE_LIMIT_MAX_REQUESTS cfg <? c + 1) eqn:L;
        [apply Z.ltb_lt in L; lia|].
      simpl. split; [reflexivity|]. split; [exact Hb|]. apply S.
    + intro Hc. destruct (RATE_LIMIT_MAX_REQUESTS cfg <? c + 1) eqn:L;
        [reflexivity|apply Z.ltb_ge in L; lia].
Qed.

(** The identity's first request, with no live entry and no active block. *)
Lemma rl_first_step cfg ip post t0 lim :
  DISABLE_RATE_LIMIT cfg = false -> is_localhost ip = false ->
  (forall b, map_get String.eqb ip (blockedIPs lim) = Some b -> blockedUntil b <= t0) ->
  (forall e, map_get String.eqb ip (rateLimitMap lim) = Some e -> resetTime e < t0) ->
  (0 < rl_threshold cfg post ->
     fst (rateLimit cfg ip post t0 lim) = RLNext /\
     map_get String.eqb ip (blockedIPs (snd (rateLimit cfg ip post t0 lim))) = None /\
     (map_get String.eqb ip (rateLimitMap (snd (rateLimit cfg ip post t0 lim))) =
        Some (entry_of post 1 (t0 + RATE_LIMIT_WINDOW)) \/
      map_get String.eqb ip (rateLimitMap (snd (rateLimit cfg ip post t0 lim))) = None)) /\
  (rl_threshold cfg post <= 0 ->
     fst (rateLimit cfg ip post t0 lim) =
       RLLimited post (ceil_div_1000 (t0 + RATE_LIMIT_WINDOW - t0))).
Proof.
  intros Hd Hl Hb He. destruct lim as [m bl0]; simpl in Hb, He.
  destruct (isIPBlocked_lapsed ip t0 bl0 Hb) as [B1 B2].
  unfold rateLimit. rewrite Hd. cbn [blockedIPs rateLimitMap].
  destruct (isIPBlocked ip t0 bl0) as [blk bl] eqn:B. simpl in B1, B2. subst blk. rewrite Hl.
  unfold count_request. cbn [blockedIPs rateLimitMap].
  assert (M : (match map_get String.eqb ip m with
                | Some e => if resetTime e <? t0
                            then (mk_rl 0 0 (t0 + RATE_LIMIT_WINDOW) 0,
                                  map_set String.eqb ip (mk_rl 0 0 (t0 + RATE_LIMIT_WINDOW) 0) m)
                            else (e, m)
                | None => (mk_rl 0 0 (t0 + RATE_LIMIT_WINDOW) 0,
                           map_set String.eqb ip (mk_rl 0 0 (t0 + RATE_LIMIT_WINDOW) 0) m)
                end) =
             (mk_rl 0 0 (t0 + RATE_LIMIT_WINDOW) 0,
              map_set String.eqb ip (mk_rl 0 0 (t0 + RATE_LIMIT_WINDOW) 0) m)).
  { destruct (map_get String.eqb ip m) as [e|] eqn:G; [|reflexivity].
    rewrite (proj2 (Z.ltb_lt _ _) (He e eq_refl)). reflexivity. }
  rewrite M. clear M. cbv zeta.
  set (m2 := enforce_rl_limit (map_set String.eqb ip (mk_rl 0 0 (t0 + RATE_LIMIT_WINDOW) 0) m)).
  assert (S : forall e, map_get String.eqb ip
                (if map_has String.eqb ip m2 then map_set String.eqb ip e m2 else m2) = Some e \/
              map_get String.eqb ip
                (if map_has String.eqb ip m2 then map_set String.eqb ip e m2 else m2) = None).
  { intro e. destruct (map_has String.eqb ip m2) eqn:Hh.
    - left. apply (map_get_set_same String.eqb String.eqb_eq).
    - right. apply map_get_None. exact Hh. }
  unfold rl_threshold. destruct post; simpl.
  - split.
    + intro Hc. destruct (RATE_LIMIT_MAX_ANNOUNCES cfg <? 1) eqn:L; [apply Z.ltb_lt in L; lia|].
      simpl. split; [reflexivity|]. split; [exact B2|]. apply S.
    + intro Hc. destruct (RATE_LIMIT_MAX_ANNOUNCES cfg <? 1) eqn:L;
        [reflexivity|apply Z.ltb_ge in L; lia].
  - split.
    + intro Hc. destruct (RATE_LIMIT_MAX_REQUESTS cfg <? 1) eqn:L; [apply Z.ltb_lt in L; lia|].
      simpl. split; [reflexivity|]. split; [exact B2|]. apply S.
    + intro Hc. destruct (RATE_LIMIT_MAX_REQUESTS cfg <? 1) eqn:L;
        [reflexivity|apply Z.ltb_ge in L; lia].
Qed.

Lemma rateLimit_NoDup cfg ip post now lim :
  NoDup (map fst (rateLimitMap lim)) ->
  NoDup (map fst (rateLimitMap (snd (rateLimit cfg ip post now lim)))).
Proof.
  intro H. unfold rateLimit. destruct (DISABLE_RATE_LIMIT cfg); [exact H|].
  destruct (isIPBlocked ip now (blockedIPs lim)) as [blk bl].
  destruct blk; [exact H|]. destruct (is_localhost ip); [exact H|].
  apply count_request_rl_ok. exact H.
Qed.

Lemma step_request cfg st r t :
  verdict (fst (step cfg st (Request r) t)) =
    fst (rateLimit cfg (request_ip r) (request_is_post r) t (limits st)) /\
  limits (snd (step cfg st (Request r) t)) =
    snd (rateLimit cfg (request_ip r) (request_is_post r) t (limits st)).
Proof.
  simpl. destruct (rateLimit cfg (request_ip r) (request_is_post r) t (limits st)) as [o lim].
  destruct o; simpl; try (split; reflexivity).
  destruct r as [ip q|ip d|ip]; simpl.
  - destruct (get_announce cfg (rooms st) q t). split; reflexivity.
  - destruct (post_announce (rooms st) (nonces st) d t) as [[? ?] ?]. split; reflexivity.
  - destruct (scrape cfg (rooms st) t). split; reflexivity.
Qed.

Lemma isIPBlocked_other ip ip' now bl :
  ip' <> ip ->
  map_get String.eqb ip (snd (isIPBlocked ip' now bl)) = map_get String.eqb ip bl.
Proof.
  intro N. unfold isIPBlocked, BLOCKED_IPS. simpl.
  destruct (map_get String.eqb ip' bl) as [b|]; [|reflexivity].
  destruct (now <? blockedUntil b); [reflexivity|].
  apply (map_get_delete_other String.eqb String.eqb_eq). congruence.
Qed.

Lemma map_get_filter_None {V} (f : string * V -> bool) ip m :
  map_get String.eqb ip m = None -> map_get String.eqb ip (filter f m) = None.
Proof.
  induction m as [|[k v] m IH]; simpl; [reflexivity|].
  destruct (String.eqb k ip) eqn:E; [discriminate|]. intro H.
  destruct (f (k, v)); simpl; [rewrite E|]; auto.
Qed.

Lemma step_other cfg st ev t ip post c R :
  req_from ip ev = false -> rl_inv ip post c R (limits st) ->
  rl_inv ip post c R (limits (snd (step cfg st ev t))).
Proof.
  intros F [N [B G]]. destruct ev as [r| | | |].
  - simpl in F. assert (Ne : request_ip r <> ip) by (intro X; rewrite X, String.eqb_refl in F; discriminate).
    rewrite (proj2 (step_request cfg st r t)).
    split; [apply rateLimit_NoDup; exact N|].
    destruct (limits st) as [m bl]. simpl in *.
    unfold rateLimit. destruct (DISABLE_RATE_LIMIT cfg); [split; assumption|].
    pose proof (isIPBlocked_other ip (request_ip r) t bl Ne) as IB.
    revert IB. cbn [blockedIPs rateLimitMap]. case_eq (isIPBlocked (request_ip r) t bl). intros blk bl1 _ IB. simpl in IB.
    destruct blk; [simpl; rewrite IB; split; assumption|].
    destruct (is_localhost (request_ip r)); [simpl; rewrite IB; split; assumption|].
    destruct (count_request_other cfg ip (request_ip r) (request_is_post r) t (mk_limiter m bl1) Ne)
      as [C1 C2].
    simpl in C1, C2. rewrite C1, IB. split; [exact B|].
    destruct C2 as [C2|C2]; rewrite C2; auto.
  - exact (conj N (conj B G)).
  - simpl. split; [|split; [exact B|]].
    + destruct (rl_cleanup_keys t (rateLimitMap (limits st)) (rateLimitMap (limits st))
                  (rateLimitMap (limits st))) as [N' _]; auto using incl_refl.
    + unfold rate_limit_cleanup_tick.
      rewrite (rl_cleanup_get t (rateLimitMap (limits st)) (rateLimitMap (limits st)) N).
      2:{ intros k e Hin. apply map_get_NoDup_In; assumption. }
      destruct G as [G|G]; rewrite G; [|right; reflexivity].
      unfold rl_decay. destruct (resetTime (entry_of post c R) <? t); [|left; reflexivity].
      right. destruct post; reflexivity.
  - simpl. split; [exact N|]. split; [|exact G].
    unfold ip_block_cleanup_tick. apply map_get_filter_None, map_get_filter_None. exact B.
  - exact (conj N (conj B G)).
Qed.

Lemma run_cons_snd cfg st ev t L :
  snd (run cfg st ((ev, t) :: L)) = snd (run cfg (snd (step cfg st ev t)) L).
Proof.
  simpl. destruct (step cfg st ev t) as [o st1]. cbn [fst snd]. destruct (run cfg st1 L). reflexivity.
Qed.

Lemma run_cons_fst cfg st ev t L :
  fst (run cfg st ((ev, t) :: L)) =
  fst (step cfg st ev t) :: fst (run cfg (snd (step cfg st ev t)) L).
Proof.
  simpl. destruct (step cfg st ev t) as [o st1]. cbn [fst snd]. destruct (run cfg st1 L). reflexivity.
Qed.

Lemma ip_verdicts_none ip evs os : ip_times ip evs = [] -> ip_verdicts ip evs os = [].
Proof.
  revert os. induction evs as [|[ev t] evs IH]; intros os H; [destruct os; reflexivity|].
  simpl in H. destruct os as [|o os]; [reflexivity|]. simpl.
  destruct (req_from ip ev); [discriminate|]. apply IH. exact H.
Qed.

Lemma run_counting cfg ip post R :
  DISABLE_RATE_LIMIT cfg = false -> is_localhost ip = false ->
  forall evs st c,
  rl_inv ip post c R (limits st) ->
  (forall r t, In (Request r, t) evs -> request_ip r = ip -> request_is_post r = post /\ t <= R) ->
  c + Z.of_nat (length (ip_times ip evs)) <= rl_threshold cfg post + 1 ->
  (forall k, (k < length evs)%nat -> req_from ip (fst (nth k evs (NonceTimers, 0))) = true ->
     map_has String.eqb ip (rateLimitMap (limits (snd (run cfg st (firstn k evs))))) = true) ->
  ip_verdicts ip evs (fst (run cfg st evs)) =
    expected_from (rl_threshold cfg post) post R c (ip_times ip evs).
Proof.
  intros Hd Hl evs. induction evs as [|[ev t] evs IH]; intros st c I Hk Hc Hp; [reflexivity|].
  assert (Hp' : forall k, (k < length evs)%nat ->
            req_from ip (fst (nth k evs (NonceTimers, 0))) = true ->
            map_has String.eqb ip (rateLimitMap (limits (snd (run cfg (snd (step cfg st ev t))
                                                                 (firstn k evs))))) = true).
  { intros k L F. rewrite <- run_cons_snd.
    apply (Hp (S k)); [simpl; lia|exact F]. }
  assert (Hk' : forall r t', In (Request r, t') evs -> request_ip r = ip ->
                  request_is_post r = post /\ t' <= R)
    by (intros r t' Hin; apply Hk; right; exact Hin).
  rewrite run_cons_fst. simpl ip_verdicts. simpl ip_times. simpl ip_times in Hc.
  destruct (req_from ip ev) eqn:F.
  - destruct ev as [r| | | |]; try discriminate F. simpl in F. apply String.eqb_eq in F.
    destruct (Hk r t (or_introl eq_refl) F) as [Kp Kt].
    destruct I as [N [B G]].
    assert (G' : map_get String.eqb ip (rateLimitMap (limits st)) = Some (entry_of post c R)).
    { specialize (Hp 0%nat ltac:(simpl; lia)). simpl in Hp. rewrite F, String.eqb_refl in Hp.
      specialize (Hp eq_refl). destruct G as [G|G]; [exact G|].
      unfold map_has in Hp. rewrite G in Hp. discriminate. }
    destruct (step_request cfg st r t) as [V Lm]. rewrite F, Kp in V, Lm.
    destruct (rl_own_step cfg ip post t (limits st) c R Hd Hl B G' Kt) as [Lt Ge].
    simpl expected_from. simpl length in Hc.
    destruct (Z_lt_ge_dec c (rl_threshold cfg post)) as [L|L].
    + destruct (Lt L) as [O [B' G'']].
      rewrite (proj2 (Z.ltb_lt _ _) L), V, O. f_equal.
      apply IH; [| exact Hk' | lia | exact Hp'].
      rewrite Lm. split; [apply rateLimit_NoDup; exact N|]. split; [exact B'|exact G''].
    + rewrite (proj2 (Z.ltb_ge c (rl_threshold cfg post)) ltac:(lia)), V, (Ge ltac:(lia)).
      assert (E : ip_times ip evs = []) by (destruct (ip_times ip evs); [reflexivity|simpl in Hc; lia]).
      rewrite E, ip_verdicts_none by exact E. reflexivity.
  - apply IH; [apply step_other; assumption | exact Hk' | exact Hc | exact Hp'].
Qed.

(** C7 (amended): take an address that is not localhost, not blocked at
    [t0] and with no live entry at [t0] (none, or one whose window has
    elapsed: [resetTime < t0]), in a rate-limit table whose keys are distinct
    (as the keys of a JS [Map] are).  Its first request of one kind comes at
    [t0], its later requests are of the same kind, at times up to
    [t0 + RATE_LIMIT_WINDOW] and at most [threshold] of them; any other events
    may come in between: requests of other clients, and the room, rate-limit,
    IP-block and nonce timers.  Provided that its entry is still in the table
    whenever another of its requests arrives, the first [threshold] of its
    requests are allowed and the next is refused with
    [ceil((t0 + RATE_LIMIT_WINDOW - t) / 1000)] seconds.  Requests of other
    clients can evict the entry through the [MAX_RATE_LIMIT_ENTRIES] cap,
    which the proviso excludes (see [C7_cap_eviction_restarts_count]). *)
Theorem C7_window_counting (cfg : config) (st : server) (ip : string) (post : bool)
    (r0 : request) (t0 : Z) (evs : list (event * Z)) :
  DISABLE_RATE_LIMIT cfg = false -> is_localhost ip = false ->
  request_ip r0 = ip -> request_is_post r0 = post ->
  (forall b, map_get String.eqb ip (blockedIPs (limits st)) = Some b -> blockedUntil b <= t0) ->
  (forall e, map_get String.eqb ip (rateLimitMap (limits st)) = Some e -> resetTime e < t0) ->
  nodup_strs (map fst (rateLimitMap (limits st))) = true ->
  0 <= rl_threshold cfg post ->
  Z.of_nat (length (ip_times ip evs)) <= rl_threshold cfg post ->
  (forall r t, In (Request r, t) evs -> request_ip r = ip ->
     request_is_post r = post /\ t <= t0 + RATE_LIMIT_WINDOW) ->
  (forall k, (k < length evs)%nat -> req_from ip (fst (nth k evs (NonceTimers, 0))) = true ->
     map_has String.eqb ip
       (rateLimitMap (limits (snd (run cfg st ((Request r0, t0) :: firstn k evs))))) = true) ->
  ip_verdicts ip ((Request r0, t0) :: evs) (fst (run cfg st ((Request r0, t0) :: evs))) =
    expected_rl cfg post t0 (ip_times ip ((Request r0, t0) :: evs)).
Proof.
  intros Hd Hl Hip Hpost Hb He Hnd H0 Hlen Hk Hp.
  rewrite run_cons_fst. cbn [ip_verdicts ip_times req_from]. rewrite Hip, String.eqb_refl.
  unfold expected_rl. simpl expected_from.
  destruct (step_request cfg st r0 t0) as [V Lm]. rewrite Hip, Hpost in V, Lm.
  destruct (rl_first_step cfg ip post t0 (limits st) Hd Hl Hb He) as [Lt Ge].
  destruct (Z_lt_ge_dec 0 (rl_threshold cfg post)) as [L|L].
  - destruct (Lt L) as [O [B' G']].
    rewrite (proj2 (Z.ltb_lt _ _) L), V, O. f_equal.
    apply run_counting; [exact Hd | exact Hl | | exact Hk | lia |].
    + rewrite Lm. split; [apply rateLimit_NoDup, nodup_strs_NoDup; exact Hnd|].
      split; [exact B'|exact G'].
    + intros k Lk F. rewrite <- run_cons_snd. apply Hp; assumption.
  - rewrite (proj2 (Z.ltb_ge 0 (rl_threshold cfg post)) ltac:(lia)), V, (Ge ltac:(lia)).
    assert (E : ip_times ip evs = []) by (destruct (ip_times ip evs); [reflexivity|simpl in Hlen; lia]).
    rewrite E, ip_verdicts_none by exact E. reflexivity.
Qed.

(** ** Instances of the properties with hypotheses *)

Lemma C7_window_counting_witness :
  ip_verdicts "1.2.3.4" ((Request (GetScrape "1.2.3.4"), 0) :: interleaved_events)
    (fst (run small_rl_config empty_server ((Request (GetScrape "1.2.3.4"), 0) :: interleaved_events))) =
  expected_rl small_rl_config false 0
    (ip_times "1.2.3.4" ((Request (GetScrape "1.2.3.4"), 0) :: interleaved_events)) /\
  expected_rl small_rl_config false 0
    (ip_times "1.2.3.4" ((Request (GetScrape "1.2.3.4"), 0) :: interleaved_events)) =
  [RLNext; RLNext; RLLimited false 60].
Proof.
  split; [|vm_compute; reflexivity].
  apply (C7_window_counting small_rl_config empty_server "1.2.3.4" false (GetScrape "1.2.3.4") 0
           interleaved_events).
  - reflexivity.
  - reflexivity.
  - reflexivity.
  - reflexivity.
  - intros b H. discriminate H.
  - intros e H. discriminate H.
  - vm_compute. reflexivity.
  - vm_compute. discriminate.
  - vm_compute. discriminate.
  - intros r t Hin Hip. unfold interleaved_events in Hin.
    repeat destruct Hin as [Hin|Hin]; try contradiction; try discriminate Hin;
      injection Hin as <- <-; vm_compute in Hip; try discriminate Hip;
      (split; [reflexivity | unfold RATE_LIMIT_WINDOW; lia]).
  - intros k Hk Hr.
    do 8 (destruct k as [|k]; [vm_compute in Hr; try discriminate Hr; vm_compute; reflexivity|]).
    simpl in Hk. lia.
Defined.

Lemma get_announce_echoes_paging_witness :
  validateQueryParams paging_query = [] /\
  exists resp, fst (get_announce default_config (sample_rooms 3) paging_query 2000) = GetOk resp /\
    lr_offset resp = 10 /\ lr_limit resp = 5.
Proof.
  assert (V : validateQueryParams paging_query = []) by (vm_compute; reflexivity).
  split; [exact V|].
  exact (get_announce_echoes_paging default_config (sample_rooms 3) paging_query 2000 V).
Defined.


Lemma get_announce_maxWager_zero_witness :
  q_maxWager zero_max_query = Some "0" /\ parse_int_string "0" = Some 0 /\
  get_announce default_config (sample_rooms 3) zero_max_query 2000 =
  get_announce default_config (sample_rooms 3) (with_maxWager zero_max_query None) 2000.
Proof.
  assert (H1 : q_maxWager zero_max_query = Some "0") by reflexivity.
  assert (H2 : parse_int_string "0" = Some 0) by (vm_compute; reflexivity).
  split; [exact H1|]. split; [exact H2|].
  exact (get_announce_maxWager_zero default_config (sample_rooms 3) zero_max_query 2000 "0" H1 H2).
Defined.

Lemma get_announce_sort_order_witness :
  numeric_createdAt (sample_rooms 3) = true /\
  match get_announce default_config (sample_rooms 3) no_query 2000 with
  | (GetOk resp, _) =>
      (q_sort no_query = Some "oldest" ->
         Sorted (fun a b => created_num a <= created_num b) (lr_rooms resp)) /\
      ((forall s, q_sort no_query = Some s -> s <> "oldest" /\ s <> "wager_high" /\ s <> "wager_low") ->
         Sorted (fun a b => created_num b <= created_num a) (lr_rooms resp))
  | (GetRejected _, _) => True
  end.
Proof.
  assert (H : numeric_createdAt (sample_rooms 3) = true) by (vm_compute; reflexivity).
  split; [exact H|].
  exact (get_announce_sort_order default_config (sample_rooms 3) no_query 2000 H).
Defined.

Lemma step_keeps_rooms_valid_witness :
  forallb (fun p => room_valid (snd p)) (rooms sample_server) = true /\
  forallb (fun p => room_valid (snd p))
    (rooms (snd (step default_config sample_server
                   (Request (PostAnnounce "1.2.3.4" (sample_data "r9"))) 2000))) = true.
Proof.
  assert (H : forallb (fun p => room_valid (snd p)) (rooms sample_server) = true)
    by (vm_compute; reflexivity).
  split; [exact H|].
  exact (step_keeps_rooms_valid default_config sample_server
           (Request (PostAnnounce "1.2.3.4" (sample_data "r9"))) 2000 H).
Defined.

Lemma blockIP_isIPBlocked_witness :
  is_localhost "1.2.3.4" = false /\
  isIPBlocked "1.2.3.4" 400000 (blockIP default_config "1.2.3.4" "Excessive requests" 0 []) =
  (if 400000 <? 0 + BLOCK_DURATION default_config
   then (Some "Excessive requests", blockIP default_config "1.2.3.4" "Excessive requests" 0 [])
   else (None, map_delete String.eqb "1.2.3.4" [])).
Proof.
  assert (H : is_localhost "1.2.3.4" = false) by reflexivity.
  split; [exact H|].
  exact (blockIP_isIPBlocked default_config "1.2.3.4" "Excessive requests" 0 400000 [] H).
Defined.

Lemma step_keeps_no_localhost_blocks_witness :
  no_localhost_blocks sample_limiter = true /\
  no_localhost_blocks
    (limits (snd (step default_config (mk_server [] (mk_nonce_store [] []) sample_limiter)
                   (Request (GetScrape "1.2.3.4")) 1000))) = true.
Proof.
  assert (H : no_localhost_blocks sample_limiter = true) by (vm_compute; reflexivity).
  split; [exact H|].
  exact (step_keeps_no_localhost_blocks default_config
           (mk_server [] (mk_nonce_store [] []) sample_limiter) (Request (GetScrape "1.2.3.4")) 1000 H).
Defined.

Lemma rateLimit_localhost_passes_witness :
  no_localhost_blocks sample_limiter = true /\ is_localhost "127.0.0.1" = true /\
  rateLimit default_config "127.0.0.1" true 1000 sample_limiter = (RLNext, sample_limiter).
Proof.
  assert (H1 : no_localhost_blocks sample_limiter = true) by (vm_compute; reflexivity).
  assert (H2 : is_localhost "127.0.0.1" = true) by reflexivity.
  split; [exact H1|]. split; [exact H2|].
  exact (rateLimit_localhost_passes default_config "127.0.0.1" true 1000 sample_limiter H1 H2).
Defined.

Lemma step_keeps_rl_bounded_witness :
  rl_bounded sample_limiter = true /\
  rl_bounded (limits (snd (step default_config (mk_server [] (mk_nonce_store [] []) sample_limiter)
                             RateLimitCleanup 100000))) = true.
Proof.
  assert (H : rl_bounded sample_limiter = true) by (vm_compute; reflexivity).
  split; [exact H|].
  exact (step_keeps_rl_bounded default_config
           (mk_server [] (mk_nonce_store [] []) sample_limiter) RateLimitCleanup 100000 H).
Defined.

Lemma rate_limit_cleanup_tick_get_witness :
  nodup_strs (map fst (rateLimitMap sample_limiter)) = true /\
  map_get String.eqb "1.2.3.4" (rate_limit_cleanup_tick 100000 (rateLimitMap sample_limiter)) =
  match map_get String.eqb "1.2.3.4" (rateLimitMap sample_limiter) with
  | Some e =>
      if resetTime e <? 100000 then
        if 0 <? violations e
        then Some (mk_rl (count e) (announceCount e) (resetTime e) (violations e - 1))
        else None
      else Some e
  | None => None
  end.
Proof.
  assert (H : nodup_strs (map fst (rateLimitMap sample_limiter)) = true) by (vm_compute; reflexivity).
  split; [exact H|].
  exact (rate_limit_cleanup_tick_get 100000 (rateLimitMap sample_limiter) "1.2.3.4" H).
Defined.

Lemma nonce_timer_releases_witness :
  truthy (JStr "n-1") = true /\ 0 + NONCE_CLEANUP_INTERVAL <= 300000 /\
  let ns' := fire_nonce_timers 300000 (snd (check_nonce (JStr "n-1") 0 (mk_nonce_store [] []))) in
  set_has (JStr "n-1") (usedNonces ns') = false /\ fst (check_nonce (JStr "n-1") 300000 ns') = [].
Proof.
  assert (H1 : truthy (JStr "n-1") = true) by reflexivity.
  assert (H2 : 0 + NONCE_CLEANUP_INTERVAL <= 300000) by (unfold NONCE_CLEANUP_INTERVAL; lia).
  split; [exact H1|]. split; [exact H2|].
  exact (nonce_timer_releases (JStr "n-1") 0 300000 (mk_nonce_store [] []) H1 H2).
Defined.

Lemma room_cleanup_tick_size_witness :
  nodup_keys (map fst (sample_rooms 103)) = true /\
  rooms_size (room_cleanup_tick default_config 2000 (sample_rooms 103)) =
  Z.min (rooms_size (sweep_expired default_config 2000 (sample_rooms 103))) MAX_ROOMS.
Proof.
  assert (H : nodup_keys (map fst (sample_rooms 103)) = true) by (vm_compute; reflexivity).
  split; [exact H|].
  exact (room_cleanup_tick_size default_config 2000 (sample_rooms 103) H).
Defined.
